(** * A shallow embedding of [LocalStorageClient] / [LocalStorageTable]

    Source: [src/index.ts] (class [LocalStorageClient]) and the
    documented copy in [src/unnamed/part_000] (class [LocalStorageTable],
    which adds the remote synchronisation methods).  Both classes have the
    same CRUD code; this file models it once.

    Data model.
    - [json] is a value that [JSON.parse] can produce (what a storage slot
      or a response body holds).  An object is the list of its own
      properties in JavaScript property order (array-index keys in
      ascending order, then the other keys in creation order), without
      duplicate keys; every object has [Object.prototype] as prototype.
    - [val] is a run-time JavaScript value as the callers and the code build
      it: it adds [undefined], which only occurs in caller objects (queries,
      updates, items) and as the result of reading a missing property, and
      the built-in objects reachable by reading a property of a parsed
      object: [Object], [Object.prototype] and the methods of
      [Object.prototype] (a caller may also put them in a query).
      Arrays and objects of [val] are values created in the current call;
      every object read from storage is freshly parsed, so it is never
      identical ([===]) to an object the caller holds.
    - the environment: the [localStorage] slots, whether [getItem] /
      [setItem] throw (disabled storage, quota exceeded), the reading of
      [Date.now()], and a heap of caller-owned objects (the [item] passed
      to [insert] is a reference that [insert] mutates).
    Numbers are integers ([Z]); property access on values that are neither
    objects nor [null]/[undefined] yields [undefined] (the members of
    arrays, strings, numbers and booleans, such as [length], are not
    modelled: tables here hold records). *)

From Stdlib Require Import String List ZArith Bool Lia.
Import ListNotations.
Open Scope string_scope.
Open Scope Z_scope.
Set Warnings "-register-all".

(** ** Values *)

Inductive json : Type :=
| JNull
| JBool (b : bool)
| JNum (n : Z)
| JStr (s : string)
| JArr (l : list json)
| JObj (o : list (string * json)).

Inductive val : Type :=
| VUndef
| VNull
| VBool (b : bool)
| VNum (n : Z)
| VStr (s : string)
| VArr (l : list val)
| VObj (o : list (string * val))
| VBuiltin (name : string).  (* [Object], [Object.prototype], or
                                 ["Object.prototype." ++ m] for its method [m] *)

(** A [json] value seen as a run-time value (what [JSON.parse] returns). *)
Fixpoint embed (j : json) : val :=
  match j with
  | JNull => VNull
  | JBool b => VBool b
  | JNum n => VNum n
  | JStr s => VStr s
  | JArr l => VArr (map embed l)
  | JObj o => VObj (map (fun '(k, x) => (k, embed x)) o)
  end.

Definition embed_obj (o : list (string * json)) : list (string * val) :=
  map (fun '(k, x) => (k, embed x)) o.

(** [JSON.stringify] treats [undefined] and functions alike: omitted as an
    object property, [null] in an array, no text at the top level.  Of the
    built-ins only [Object.prototype] is not a function. *)
Definition json_omits (v : val) : bool :=
  match v with
  | VUndef => true
  | VBuiltin n => negb (String.eqb n "Object.prototype")
  | _ => false
  end.

(** [JSON.parse(JSON.stringify(v))] for a value that [JSON.stringify] does
    not omit ([Object.prototype] has no enumerable property: [{}]). *)
Fixpoint to_json (v : val) : json :=
  match v with
  | VUndef => JNull
  | VNull => JNull
  | VBool b => JBool b
  | VNum n => JNum n
  | VStr s => JStr s
  | VArr l => JArr (map to_json l)
  | VObj o =>
      JObj ((fix go (o : list (string * val)) : list (string * json) :=
               match o with
               | [] => []
               | (k, x) :: t => if json_omits x then go t else (k, to_json x) :: go t
               end) o)
  | VBuiltin n => if String.eqb n "Object.prototype" then JObj [] else JNull
  end.

Definition obj_to_json (o : list (string * val)) : list (string * json) :=
  match to_json (VObj o) with
  | JObj o' => o'
  | _ => []
  end.

(** Strict equality [a === b].  Arrays and objects compare by identity; the
    left operand is always a property of a freshly parsed record (or a
    built-in it inherits), so an array or object built in the current call
    never compares equal; a built-in is identical only to itself. *)
Definition strict_eq (a b : val) : bool :=
  match a, b with
  | VUndef, VUndef => true
  | VNull, VNull => true
  | VBool x, VBool y => Bool.eqb x y
  | VNum x, VNum y => Z.eqb x y
  | VStr x, VStr y => String.eqb x y
  | VBuiltin x, VBuiltin y => String.eqb x y
  | _, _ => false
  end.

(** [obj[k]] for a key that the object [obj] does not own: the member it
    inherits from [Object.prototype], or [undefined]. *)
Definition object_proto_methods : list string :=
  ["__defineGetter__"; "__defineSetter__"; "hasOwnProperty"; "__lookupGetter__";
   "__lookupSetter__"; "isPrototypeOf"; "propertyIsEnumerable"; "toString";
   "valueOf"; "toLocaleString"].

Definition inherited (k : string) : val :=
  if String.eqb k "constructor" then VBuiltin "Object"
  else if String.eqb k "__proto__" then VBuiltin "Object.prototype"
  else if existsb (String.eqb k) object_proto_methods
  then VBuiltin ("Object.prototype." ++ k)
  else VUndef.

Fixpoint assoc {A} (k : string) (o : list (string * A)) : option A :=
  match o with
  | [] => None
  | (k', x) :: t => if String.eqb k k' then Some x else assoc k t
  end.

(** Array indices: the canonical decimal text of an integer in
    [[0, 2^32 - 2]]. *)
Definition digit_of (c : Ascii.ascii) : option N :=
  let n := Ascii.N_of_ascii c in
  if (48 <=? n)%N && (n <=? 57)%N then Some (n - 48)%N else None.

Fixpoint digits_value (s : string) (acc : N) : option N :=
  match s with
  | EmptyString => Some acc
  | String c t =>
      match digit_of c with
      | Some d => digits_value t (acc * 10 + d)%N
      | None => None
      end
  end.

Definition index_of (k : string) : option N :=
  match k with
  | EmptyString => None
  | String c t =>
      match digit_of c with
      | None => None
      | Some 0%N => match t with EmptyString => Some 0%N | _ => None end
      | Some d =>
          match digits_value t d with
          | Some n => if (n <=? 4294967294)%N then Some n else None
          | None => None
          end
      end
  end.

(** A new key [k] goes before the existing key [k'] when [k] is an array
    index smaller than [k'] or [k'] is not an array index. *)
Definition goes_before (n : N) (k' : string) : bool :=
  match index_of k' with
  | None => true
  | Some m => (n <? m)%N
  end.

Fixpoint insert_index (n : N) (k : string) (v : val) (o : list (string * val))
  : list (string * val) :=
  match o with
  | [] => [(k, v)]
  | (k', x) :: t =>
      if goes_before n k' then (k, v) :: (k', x) :: t
      else (k', x) :: insert_index n k v t
  end.

Fixpoint obj_replace (o : list (string * val)) (k : string) (v : val)
  : list (string * val) :=
  match o with
  | [] => []
  | (k', x) :: t => if String.eqb k k' then (k', v) :: t else (k', x) :: obj_replace t k v
  end.

(** Defining the own data property [k] of an ordinary object ([item.id = v],
    and each property copied by a spread [{ ...a }]): an existing property
    is overwritten in place; a new one is placed in property order (an
    array index among the indices, in ascending order, any other key
    last). *)
Definition obj_set (o : list (string * val)) (k : string) (v : val)
  : list (string * val) :=
  if existsb (String.eqb k) (map fst o) then obj_replace o k v
  else match index_of k with
       | Some n => insert_index n k v o
       | None => (o ++ [(k, v)])%list
       end.

(** ** Exceptions and the two monads *)

Inductive exn : Type :=
| TypeError
| SyntaxError
| StorageError
| NetworkError.

Inductive result (A : Type) : Type :=
| Ok (a : A)
| Throw (e : exn).
Arguments Ok {A} a.
Arguments Throw {A} e.

Definition rbind {A B} (r : result A) (f : A -> result B) : result B :=
  match r with
  | Ok a => f a
  | Throw e => Throw e
  end.

Notation "x <-? r ;; k" := (rbind r (fun x => k))
  (at level 61, r at next level, right associativity).

(** Caller-owned objects live in a heap; [loc] is a reference to one. *)
Definition loc := nat.

(** Text held by a storage slot or sent as a response body: either the text
    of a JSON value, or text that [JSON.parse] rejects. *)
Inductive slot : Type :=
| SJson (j : json)
| SText (t : string).

Record state : Type := mkState {
  ls : string -> option slot;          (* localStorage *)
  read_ok : bool;                      (* getItem does not throw *)
  write_ok : bool;                     (* setItem does not throw *)
  now : Z;                             (* what Date.now() returns *)
  heap : loc -> option (list (string * val))
}.

Definition M (A : Type) : Type := state -> result A * state.

Definition ret {A} (a : A) : M A := fun s => (Ok a, s).
Definition throw {A} (e : exn) : M A := fun s => (Throw e, s).
Definition bind {A B} (m : M A) (f : A -> M B) : M B :=
  fun s => match m s with
           | (Ok a, s') => f a s'
           | (Throw e, s') => (Throw e, s')
           end.
Definition lift {A} (r : result A) : M A := fun s => (r, s).
(** [try { m } catch (e) { h(e) }] *)
Definition try_catch {A} (m : M A) (h : exn -> M A) : M A :=
  fun s => match m s with
           | (Ok a, s') => (Ok a, s')
           | (Throw e, s') => h e s'
           end.

Notation "x <- m ;; k" := (bind m (fun x => k))
  (at level 61, m at next level, right associativity).
Notation "m ;;; k" := (bind m (fun _ => k))
  (at level 61, right associativity).

(** ** [localStorage], [Date.now()] and the caller's heap *)

Definition upd_ls (s : state) (k : string) (v : slot) : state :=
  mkState (fun k' => if String.eqb k' k then Some v else ls s k')
          (read_ok s) (write_ok s) (now s) (heap s).

Definition upd_heap (s : state) (l : loc) (o : list (string * val)) : state :=
  mkState (ls s) (read_ok s) (write_ok s) (now s)
          (fun l' => if Nat.eqb l' l then Some o else heap s l').

(** [localStorage.getItem(k)]: [null] is [None]. *)
Definition getItem (k : string) : M (option slot) :=
  fun s => if read_ok s then (Ok (ls s k), s) else (Throw StorageError, s).

(** [localStorage.setItem(k, text)] *)
Definition setItem (k : string) (v : slot) : M unit :=
  fun s => if write_ok s then (Ok tt, upd_ls s k v) else (Throw StorageError, s).

(** [Date.now()] *)
Definition date_now : M Z := fun s => (Ok (now s), s).

(** The wall clock reads [t] (an environment step, not program code). *)
Definition set_clock (t : Z) : M unit :=
  fun s => (Ok tt, mkState (ls s) (read_ok s) (write_ok s) t (heap s)).

Definition heap_get (l : loc) : M (list (string * val)) :=
  fun s => match heap s l with
           | Some o => (Ok o, s)
           | None => (Throw TypeError, s)
           end.

(** [obj[k] = v] on a caller-owned object: mutation in place. *)
Definition heap_set_prop (l : loc) (k : string) (v : val) : M unit :=
  fun s => match heap s l with
           | Some o => (Ok tt, upd_heap s l (obj_set o k v))
           | None => (Throw TypeError, s)
           end.

(** [JSON.parse(text || '[]')] where [text] is what [getItem] returned. *)
Definition parse_item (o : option slot) : result json :=
  match o with
  | None => Ok (JArr [])
  | Some (SText t) => if String.eqb t "" then Ok (JArr []) else Throw SyntaxError
  | Some (SJson j) => Ok j
  end.

(** [JSON.stringify(v)], stored as slot text. *)
Definition stringify (v : val) : slot :=
  match v with
  | VUndef => SText "undefined"
  | VBuiltin n =>
      if String.eqb n "Object.prototype" then SJson (JObj []) else SText "undefined"
  | _ => SJson (to_json v)
  end.

(** ** Array methods and the query predicate *)

(** [item[key]] *)
Definition prop_get (item : json) (k : string) : result val :=
  match item with
  | JNull => Throw TypeError
  | JObj o => Ok (match assoc k o with Some x => embed x | None => inherited k end)
  | _ => Ok VUndef
  end.

(** [Object.keys(query)] and [query[key]] for a caller's query object. *)
Definition query := list (string * val).
Definition query_keys (q : query) : list string := map fst q.
Definition query_get (q : query) (k : string) : val :=
  match assoc k q with Some v => v | None => VUndef end.

(** [Object.keys(query).every(key => item[key] === query[key])] *)
Fixpoint every_key (q : query) (item : json) (keys : list string) : result bool :=
  match keys with
  | [] => Ok true
  | k :: ks =>
      x <-? prop_get item k ;;
      if strict_eq x (query_get q k) then every_key q item ks else Ok false
  end.

Definition item_matches (q : query) (item : json) : result bool :=
  every_key q item (query_keys q).

Fixpoint filter_r {A} (p : A -> result bool) (l : list A) : result (list A) :=
  match l with
  | [] => Ok []
  | x :: t =>
      b <-? p x ;;
      r <-? filter_r p t ;;
      Ok (if b then x :: r else r)
  end.

Fixpoint map_r {A B} (f : A -> result B) (l : list A) : result (list B) :=
  match l with
  | [] => Ok []
  | x :: t =>
      y <-? f x ;;
      r <-? map_r f t ;;
      Ok (y :: r)
  end.

(** Calling an array method on a non-array throws a [TypeError]. *)
Definition as_array (j : json) : result (list json) :=
  match j with
  | JArr l => Ok l
  | _ => Throw TypeError
  end.

(** [arr.slice(s, e)] *)
Definition js_slice {A} (l : list A) (s e : Z) : list A :=
  let len := Z.of_nat (length l) in
  let rel x := if x <? 0 then Z.max (len + x) 0 else Z.min x len in
  let from := rel s in
  let to := rel e in
  firstn (Z.to_nat (to - from)) (skipn (Z.to_nat from) l).

(** [{ ...a, ...b }]: own enumerable properties, copied in order. *)
Definition spread_into (acc props : list (string * val)) : list (string * val) :=
  fold_left (fun acc '(k, v) => obj_set acc k v) props acc.

(** The own enumerable properties of a parsed value. *)
Definition own_props (j : json) : list (string * val) :=
  match j with
  | JObj o => embed_obj o
  | _ => []
  end.

(** ** The class [LocalStorageClient] (index.ts) / [LocalStorageTable] *)

Section Table.
(** [this.tableName] *)
Variable tableName : string.

(** [_getTable()]: any failure to read or parse reads as [[]]. *)
Definition _getTable : M json :=
  try_catch (o <- getItem tableName ;; lift (parse_item o))
            (fun _ => ret (JArr [])).

(** [_setTable(data)]: a failing write is logged and swallowed. *)
Definition _setTable (data : val) : M unit :=
  try_catch (setItem tableName (stringify data)) (fun _ => ret tt).

(** [insert(item)]; [item] is a reference to a caller-owned object. *)
Definition insert (item : loc) : M loc :=
  table <- _getTable ;;
  t <- date_now ;;
  heap_set_prop item "id" (VNum t) ;;;          (* item.id = Date.now() *)
  arr <- lift (as_array table) ;;               (* table.push(item) *)
  o <- heap_get item ;;
  _setTable (VArr (map embed arr ++ [VObj o])) ;;;
  ret item.

(** [select(query = {}, page = 1, limit = 10)] *)
Definition select (q : query) (page limit : Z) : M (list json) :=
  table <- _getTable ;;
  filtered <- lift (arr <-? as_array table ;; filter_r (item_matches q) arr) ;;
  let startIndex := (page - 1) * limit in
  ret (js_slice filtered startIndex (startIndex + limit)).

(** [{ ...item, ...updates }] *)
Definition merge_item (item : json) (updates : list (string * val))
  : list (string * val) :=
  spread_into (spread_into [] (own_props item)) updates.

(** [update(query, updates)] *)
Definition update (q : query) (updates : list (string * val)) : M (list json) :=
  table <- _getTable ;;
  updatedTable <- lift (arr <-? as_array table ;;
                        map_r (fun item =>
                                 b <-? item_matches q item ;;
                                 Ok (if b then VObj (merge_item item updates)
                                     else embed item)) arr) ;;
  _setTable (VArr updatedTable) ;;;
  select q 1 10.

(** [delete(query)] *)
Definition delete (q : query) : M Z :=
  table <- _getTable ;;
  arr <- lift (as_array table) ;;
  newTable <- lift (filter_r (fun item => b <-? item_matches q item ;; Ok (negb b)) arr) ;;
  _setTable (VArr (map embed newTable)) ;;;
  ret (Z.of_nat (length arr) - Z.of_nat (length newTable)).

(** [clear()] *)
Definition clear : M unit := _setTable (VArr []).

End Table.

(** What one [fetch(apiUrl, { headers })] produced: a network failure
    ([fetch] rejects), or a response with its HTTP status code and its body
    text ([response.json()] parses it).  [fetch] resolves for every HTTP
    status, 4xx and 5xx included; none of the callers reads [response.ok]
    or [response.status], so the status is carried along unused. *)
Inductive response : Type :=
| NetFail
| Body (status : Z) (text : slot).

(** One pass of [fetchAndStoreData] inside [fetchData] (part_000): the
    response is written to the [dataTableName] table.  Every error is
    caught and logged. *)
Definition fetchAndStoreData (dataTableName : string) (r : response) : M unit :=
  try_catch
    (data <- (match r with
              | NetFail => throw NetworkError
              | Body _ (SText _) => throw SyntaxError
              | Body _ (SJson j) => ret j
              end) ;;
     _setTable dataTableName (embed data))
    (fun _ => ret tt).

(** The public Table Store operations, for statements about all of them. *)
Inductive op : Type :=
| OInsert (item : loc)
| OSelect (q : query) (page limit : Z)
| OUpdate (q : query) (updates : list (string * val))
| ODelete (q : query)
| OClear.

Inductive op_result : Type :=
| RLoc (l : loc)
| RList (l : list json)
| RNum (n : Z)
| RUnit.

Definition fmap {A B} (f : A -> B) (m : M A) : M B := x <- m ;; ret (f x).

Definition run_op (tableName : string) (o : op) : M op_result :=
  match o with
  | OInsert item => fmap RLoc (insert tableName item)
  | OSelect q p l => fmap RList (select tableName q p l)
  | OUpdate q u => fmap RList (update tableName q u)
  | ODelete q => fmap RNum (delete tableName q)
  | OClear => fmap (fun _ => RUnit) (clear tableName)
  end.

(** ** Concrete runs *)

Definition empty_state : state :=
  mkState (fun _ => None) true true 0 (fun _ => None).

Definition rec_n (n : Z) : list (string * json) := [("n", JNum n)].
Definition table15 : list json := map (fun i => JObj (rec_n (Z.of_nat i))) (seq 1 15).
Definition st15 : state := upd_ls empty_state "t" (SJson (JArr table15)).

Example select_page2 :
  fst (select "t" [] 2 10 st15) = Ok (map (fun i => JObj (rec_n (Z.of_nat i))) (seq 11 5)).
Proof. reflexivity. Qed.
Example select_page3 : fst (select "t" [] 3 10 st15) = Ok [].
Proof. reflexivity. Qed.

(** ** Spec-side readings *)

(** A record is a JSON object; [field r k] is [r[k]]. *)
Definition record := list (string * json).
Definition field (r : record) (k : string) : val :=
  match assoc k r with Some x => embed x | None => inherited k end.

(** A record matches a query iff every field named in the query is
    strictly equal to the record's value for that field. *)
Definition record_matches (q : query) (r : record) : bool :=
  forallb (fun k => strict_eq (field r k) (query_get q k)) (query_keys q).

(** The elements of [l] at the positions [i] with [a <= i < b]. *)
Fixpoint window_from {A} (i a b : Z) (l : list A) : list A :=
  match l with
  | [] => []
  | x :: t =>
      if (a <=? i) && (i <? b) then x :: window_from (i + 1) a b t
      else window_from (i + 1) a b t
  end.

Definition slice_spec {A} (l : list A) (a b : Z) : list A := window_from 0 a b l.

(** The position [arr.slice] uses for an argument [x]: counted from the end
    when negative, clamped to [[0, len]]. *)
Definition js_rel (len x : Z) : Z :=
  if x <? 0 then Z.max (len + x) 0 else Z.min x len.

(** ** General lemmas *)

Section JsonInd.
Variable P : json -> Prop.
Hypothesis HNull : P JNull.
Hypothesis HBool : forall b, P (JBool b).
Hypothesis HNum : forall n, P (JNum n).
Hypothesis HStr : forall s, P (JStr s).
Hypothesis HArr : forall l, Forall P l -> P (JArr l).
Hypothesis HObj : forall o, Forall (fun p => P (snd p)) o -> P (JObj o).

Fixpoint json_ind' (j : json) : P j :=
  match j with
  | JNull => HNull
  | JBool b => HBool b
  | JNum n => HNum n
  | JStr s => HStr s
  | JArr l =>
      HArr l ((fix go (l : list json) : Forall P l :=
                 match l with
                 | [] => Forall_nil _
                 | x :: t => Forall_cons x (json_ind' x) (go t)
                 end) l)
  | JObj o =>
      HObj o ((fix go (o : list (string * json)) : Forall (fun p => P (snd p)) o :=
                 match o with
                 | [] => Forall_nil _
                 | (k, x) :: t => Forall_cons (k, x) (json_ind' x) (go t)
                 end) o)
  end.
End JsonInd.

Lemma embed_not_undef (j : json) : embed j <> VUndef.
Proof. destruct j; discriminate. Qed.

(** [JSON.parse(JSON.stringify(x))] gives back a parsed value unchanged. *)
Lemma to_json_embed (j : json) : to_json (embed j) = j.
Proof.
  induction j using json_ind'; try reflexivity.
  - simpl. f_equal. induction H; simpl; [reflexivity|]. now rewrite H, IHForall.
  - induction H as [|[k x] o Hx _ IH]; [reflexivity|].
    simpl in *. injection IH as IH.
    destruct x; simpl in *; rewrite IH; try rewrite Hx; reflexivity.
Qed.

Lemma obj_to_json_embed (r : record) : obj_to_json (embed_obj r) = r.
Proof.
  unfold obj_to_json, embed_obj.
  change (VObj (map (fun '(k, x) => (k, embed x)) r)) with (embed (JObj r)).
  now rewrite to_json_embed.
Qed.

Lemma stringify_embed (j : json) : stringify (embed j) = SJson j.
Proof.
  unfold stringify. rewrite to_json_embed. destruct j; reflexivity.
Qed.

Lemma stringify_arr (l : list val) : stringify (VArr l) = SJson (JArr (map to_json l)).
Proof. reflexivity. Qed.

Lemma map_to_json_embed (l : list json) : map to_json (map embed l) = l.
Proof.
  induction l; simpl; [reflexivity|]. now rewrite to_json_embed, IHl.
Qed.

Lemma every_key_obj (q : query) (r : record) (keys : list string) :
  every_key q (JObj r) keys =
  Ok (forallb (fun k => strict_eq (field r k) (query_get q k)) keys).
Proof.
  induction keys as [|k ks IH]; simpl; [reflexivity|].
  unfold field. destruct (strict_eq _ _); simpl; auto.
Qed.

Lemma item_matches_obj (q : query) (r : record) :
  item_matches q (JObj r) = Ok (record_matches q r).
Proof. apply every_key_obj. Qed.

Lemma filter_r_matches (q : query) (t : list record) :
  filter_r (item_matches q) (map JObj t) = Ok (map JObj (filter (record_matches q) t)).
Proof.
  induction t as [|r t IH]; simpl; [reflexivity|].
  rewrite item_matches_obj, IH. simpl. destruct (record_matches q r); reflexivity.
Qed.

Lemma filter_r_not_matches (q : query) (t : list record) :
  filter_r (fun item => b <-? item_matches q item ;; Ok (negb b)) (map JObj t)
  = Ok (map JObj (filter (fun r => negb (record_matches q r)) t)).
Proof.
  induction t as [|r t IH]; simpl; [reflexivity|].
  rewrite item_matches_obj, IH. simpl. destruct (record_matches q r); reflexivity.
Qed.

Lemma window_from_after {A} (l : list A) (i a b : Z) :
  a <= i -> window_from i a b l = firstn (Z.to_nat (b - i)) l.
Proof.
  revert i. induction l as [|x t IH]; intros i Hi; simpl.
  - now rewrite firstn_nil.
  - rewrite IH by lia.
    destruct (Z.ltb_spec i b).
    + rewrite (proj2 (Z.leb_le a i) Hi). simpl.
      replace (Z.to_nat (b - i)) with (S (Z.to_nat (b - (i + 1)))) by lia.
      reflexivity.
    + rewrite andb_false_r.
      replace (Z.to_nat (b - i)) with 0%nat by lia.
      replace (Z.to_nat (b - (i + 1))) with 0%nat by lia. reflexivity.
Qed.

Lemma window_from_before {A} (l : list A) (i a b : Z) :
  i <= a -> window_from i a b l = firstn (Z.to_nat (b - a)) (skipn (Z.to_nat (a - i)) l).
Proof.
  revert i. induction l as [|x t IH]; intros i Hi.
  - simpl. now rewrite skipn_nil, firstn_nil.
  - destruct (Z.eq_dec i a) as [->|Hne].
    + rewrite Z.sub_diag. simpl skipn. apply window_from_after. lia.
    + simpl. rewrite (proj2 (Z.leb_gt a i)) by lia. simpl.
      rewrite IH by lia.
      replace (Z.to_nat (a - i)) with (S (Z.to_nat (a - (i + 1)))) by lia.
      reflexivity.
Qed.

Lemma js_rel_nonneg (len x : Z) : 0 <= len -> 0 <= js_rel len x.
Proof. unfold js_rel. destruct (Z.ltb_spec x 0); lia. Qed.

Lemma js_slice_window {A} (l : list A) (s e : Z) :
  js_slice l s e =
  slice_spec l (js_rel (Z.of_nat (length l)) s) (js_rel (Z.of_nat (length l)) e).
Proof.
  unfold slice_spec. rewrite window_from_before.
  - rewrite Z.sub_0_r. reflexivity.
  - apply js_rel_nonneg. lia.
Qed.

(** [select] on a slot holding a table of records. *)
Lemma select_records (name : string) (q : query) (t : list record) (page limit : Z)
  (s : state) :
  read_ok s = true ->
  ls s name = Some (SJson (JArr (map JObj t))) ->
  select name q page limit s =
  (Ok (js_slice (map JObj (filter (record_matches q) t))
                ((page - 1) * limit) ((page - 1) * limit + limit)), s).
Proof.
  intros Hr Hs.
  unfold select, _getTable, try_catch, bind, getItem, lift, ret.
  rewrite Hr, Hs. simpl. rewrite filter_r_matches. reflexivity.
Qed.

Lemma slice_spec_clamp {A} (l : list A) (a b : Z) :
  0 <= a <= b ->
  slice_spec l (Z.min a (Z.of_nat (length l))) (Z.min b (Z.of_nat (length l)))
  = slice_spec l a b.
Proof.
  intros Hab. unfold slice_spec.
  rewrite !window_from_before by lia. rewrite !Z.sub_0_r.
  destruct (Z.le_gt_cases (Z.of_nat (length l)) a).
  - rewrite !(skipn_all2 l) by lia. now rewrite !firstn_nil.
  - rewrite (Z.min_l a) by lia.
    destruct (Z.le_gt_cases b (Z.of_nat (length l))).
    + now rewrite Z.min_l by lia.
    + rewrite Z.min_r by lia.
      rewrite !firstn_all2; [reflexivity| |]; rewrite length_skipn; lia.
Qed.

Definition t5 : list record := map (fun i => rec_n (Z.of_nat i)) (seq 1 5).
Definition st5 : state := upd_ls empty_state "t" (SJson (JArr (map JObj t5))).

(** ** C1: pagination *)

(** C1 (as stated): [select(query, page, limit)] returns the positions
    [[(page-1)*limit, (page-1)*limit+limit)] of the filtered records, for
    every [page] and [limit].  False: with five records, [select({}, 1, -3)]
    is [slice(0, -3)], the first two records, while that interval is empty. *)
Lemma select_slice_counterexample :
  fst (select "t" [] 1 (-3) st5)
  <> Ok (slice_spec (map JObj (filter (record_matches []) t5))
                    ((1 - 1) * (-3)) ((1 - 1) * (-3) + (-3))).
Proof. vm_compute. discriminate. Qed.

(** C1 (amended): for integers [page >= 1] and [limit >= 0], on a persisted
    table of records, [select(query, page, limit)] returns exactly the
    filtered records (stored order, [item[key] === query[key]] for every
    query key, a key the record does not own reading what it inherits from
    [Object.prototype]) at positions
    [(page-1)*limit <= i < (page-1)*limit + limit], and changes nothing. *)
Theorem select_page_slice (name : string) (q : query) (t : list record)
  (page limit : Z) (s : state) :
  read_ok s = true ->
  ls s name = Some (SJson (JArr (map JObj t))) ->
  1 <= page -> 0 <= limit ->
  select name q page limit s =
  (Ok (slice_spec (map JObj (filter (record_matches q) t))
                  ((page - 1) * limit) ((page - 1) * limit + limit)), s).
Proof.
  intros Hr Hs Hp Hl.
  rewrite (select_records name q t page limit s Hr Hs), js_slice_window.
  assert (0 <= (page - 1) * limit) by nia.
  unfold js_rel.
  rewrite (proj2 (Z.ltb_ge _ 0)) by lia.
  rewrite (proj2 (Z.ltb_ge ((page - 1) * limit + limit) 0)) by lia.
  rewrite slice_spec_clamp by lia. reflexivity.
Qed.

Lemma select_page_slice_witness :
  select "t" [] 2 10 st15 =
  (Ok (slice_spec (map JObj (filter (record_matches []) (map (fun i => rec_n (Z.of_nat i)) (seq 1 15))))
                  ((2 - 1) * 10) ((2 - 1) * 10 + 10)), st15).
Proof.
  apply select_page_slice; [reflexivity | reflexivity | lia | lia].
Defined.

(** ** C8: non-positive and out-of-range [page] / [limit] *)

(** C8 (as stated): for every [page] and [limit], [select] gives either an
    empty slice or the whole filtered sequence.  False: with five records,
    [select({}, -1, 2)] is [slice(-4, -2)], the second and third records. *)
Lemma select_degrade_counterexample :
  fst (select "t" [] (-1) 2 st5) = Ok [JObj (rec_n 2); JObj (rec_n 3)] /\
  fst (select "t" [] (-1) 2 st5) <> Ok [] /\
  fst (select "t" [] (-1) 2 st5) <> Ok (map JObj (filter (record_matches []) t5)).
Proof. vm_compute. repeat split; discriminate. Qed.

(** C8 (amended): for all integer [page] and [limit], on a persisted table of
    records, [select] never raises: it returns the contiguous run of the
    filtered records between the positions [start = (page-1)*limit] and
    [start + limit], each counted from the end when negative and clamped to
    the sequence ([Array.prototype.slice]); this can be empty, the whole
    sequence, or a proper run from the middle or the end. *)
Theorem select_never_raises_window (name : string) (q : query) (t : list record)
  (page limit : Z) (s : state) :
  read_ok s = true ->
  ls s name = Some (SJson (JArr (map JObj t))) ->
  let filtered := map JObj (filter (record_matches q) t) in
  let len := Z.of_nat (length filtered) in
  select name q page limit s =
  (Ok (slice_spec filtered (js_rel len ((page - 1) * limit))
                           (js_rel len ((page - 1) * limit + limit))), s).
Proof.
  intros Hr Hs filtered len.
  rewrite (select_records name q t page limit s Hr Hs), js_slice_window.
  reflexivity.
Qed.

Lemma select_never_raises_window_witness :
  select "t" [] (-1) 2 st5 =
  (Ok (slice_spec (map JObj (filter (record_matches []) t5))
         (js_rel 5 ((-1 - 1) * 2)) (js_rel 5 ((-1 - 1) * 2 + 2))), st5).
Proof.
  exact (select_never_raises_window "t" [] t5 (-1) 2 st5 eq_refl eq_refl).
Defined.

(** ** Objects: field lookup after [obj_set] and spreading *)

Ltac case_match :=
  match goal with
  | |- context [match ?x with _ => _ end] => destruct x eqn:?
  end.

Lemma assoc_none_existsb {A} (k : string) (o : list (string * A)) :
  existsb (String.eqb k) (map fst o) = false -> assoc k o = None.
Proof.
  induction o as [|[k0 x] t IH]; simpl; [reflexivity|].
  intros H. apply orb_false_iff in H as [H1 H2]. rewrite H1. exact (IH H2).
Qed.

Lemma assoc_obj_replace_eq (o : list (string * val)) (k : string) (v : val) :
  existsb (String.eqb k) (map fst o) = true -> assoc k (obj_replace o k v) = Some v.
Proof.
  induction o as [|[k0 x] t IH]; simpl; [discriminate|].
  destruct (String.eqb k k0) eqn:E; simpl; [now rewrite E|].
  rewrite E. exact IH.
Qed.

Lemma assoc_obj_replace_neq (o : list (string * val)) (k k' : string) (v : val) :
  k' <> k -> assoc k' (obj_replace o k v) = assoc k' o.
Proof.
  intros Hne. induction o as [|[k0 x] t IH]; simpl; [reflexivity|].
  destruct (String.eqb_spec k k0) as [->|Hne0]; simpl;
    [now rewrite (proj2 (String.eqb_neq k' k0) Hne)|].
  now rewrite IH.
Qed.

Lemma assoc_insert_index_eq (o : list (string * val)) (n : N) (k : string) (v : val) :
  assoc k o = None -> assoc k (insert_index n k v o) = Some v.
Proof.
  induction o as [|[k0 x] t IH]; simpl; intros H; [now rewrite String.eqb_refl|].
  destruct (String.eqb k k0) eqn:E; [discriminate|].
  destruct (goes_before n k0); simpl; [now rewrite String.eqb_refl|].
  rewrite E. exact (IH H).
Qed.

Lemma assoc_insert_index_neq (o : list (string * val)) (n : N) (k k' : string) (v : val) :
  k' <> k -> assoc k' (insert_index n k v o) = assoc k' o.
Proof.
  intros Hne. induction o as [|[k0 x] t IH]; simpl.
  - now rewrite (proj2 (String.eqb_neq k' k) Hne).
  - destruct (goes_before n k0); simpl.
    + now rewrite (proj2 (String.eqb_neq k' k) Hne).
    + now rewrite IH.
Qed.

Lemma assoc_app_last_eq (o : list (string * val)) (k : string) (v : val) :
  assoc k o = None -> assoc k (o ++ [(k, v)])%list = Some v.
Proof.
  induction o as [|[k0 x] t IH]; simpl; intros H; [now rewrite String.eqb_refl|].
  destruct (String.eqb k k0); [discriminate | exact (IH H)].
Qed.

Lemma assoc_app_last_neq (o : list (string * val)) (k k' : string) (v : val) :
  k' <> k -> assoc k' (o ++ [(k, v)])%list = assoc k' o.
Proof.
  intros Hne. induction o as [|[k0 x] t IH]; simpl.
  - now rewrite (proj2 (String.eqb_neq k' k) Hne).
  - now rewrite IH.
Qed.

Lemma assoc_obj_set_eq (o : list (string * val)) (k : string) (v : val) :
  assoc k (obj_set o k v) = Some v.
Proof.
  unfold obj_set. destruct (existsb (String.eqb k) (map fst o)) eqn:E.
  - now apply assoc_obj_replace_eq.
  - apply assoc_none_existsb in E.
    destruct (index_of k); [now apply assoc_insert_index_eq | now apply assoc_app_last_eq].
Qed.

Lemma assoc_obj_set_neq (o : list (string * val)) (k k' : string) (v : val) :
  k' <> k -> assoc k' (obj_set o k v) = assoc k' o.
Proof.
  intros Hne. unfold obj_set. destruct (existsb (String.eqb k) (map fst o)).
  - now apply assoc_obj_replace_neq.
  - destruct (index_of k);
      [now apply assoc_insert_index_neq | now apply assoc_app_last_neq].
Qed.

Lemma assoc_notin {A} (k : string) (o : list (string * A)) :
  ~ In k (map fst o) -> assoc k o = None.
Proof.
  induction o as [|[k0 x] t IH]; simpl; intros Hn; [reflexivity|].
  rewrite (proj2 (String.eqb_neq k k0)) by (intros ->; tauto).
  apply IH. tauto.
Qed.

Lemma assoc_spread_into (acc props : list (string * val)) (k : string) :
  NoDup (map fst props) ->
  assoc k (spread_into acc props) =
  match assoc k props with Some v => Some v | None => assoc k acc end.
Proof.
  unfold spread_into. revert acc.
  induction props as [|[k0 v0] ps IH]; intros acc Hnd; simpl; [reflexivity|].
  inversion Hnd as [|? ? Hnin Hnd']; subst.
  rewrite IH by exact Hnd'.
  destruct (String.eqb_spec k k0) as [->|Hne].
  - now rewrite assoc_notin, assoc_obj_set_eq.
  - now rewrite assoc_obj_set_neq by exact Hne.
Qed.

Lemma assoc_embed_obj (r : record) (k : string) :
  assoc k (embed_obj r) = option_map embed (assoc k r).
Proof.
  induction r as [|[k0 x] t IH]; simpl; [reflexivity|].
  destruct (String.eqb k k0); [reflexivity | exact IH].
Qed.

Lemma map_fst_embed_obj (r : record) : map fst (embed_obj r) = map fst r.
Proof. induction r as [|[k0 x] t IH]; simpl; [reflexivity | now rewrite IH]. Qed.

(** [{ ...item, ...updates }] is a shallow merge: a field named in [updates]
    takes the update's value, any other field keeps the record's value. *)
Lemma assoc_merge_item (r : record) (u : list (string * val)) (k : string) :
  NoDup (map fst u) -> NoDup (map fst r) ->
  assoc k (merge_item (JObj r) u) =
  match assoc k u with Some v => Some v | None => option_map embed (assoc k r) end.
Proof.
  intros Hu Hr. unfold merge_item. simpl own_props.
  rewrite assoc_spread_into by exact Hu.
  destruct (assoc k u); [reflexivity|].
  rewrite assoc_spread_into by (now rewrite map_fst_embed_obj).
  rewrite assoc_embed_obj. simpl. now destruct (assoc k r).
Qed.

Lemma to_json_obj (o : list (string * val)) : to_json (VObj o) = JObj (obj_to_json o).
Proof. reflexivity. Qed.

(** [select] reads only: the state is left as it was. *)
Lemma select_state (name : string) (q : query) (p l : Z) (s : state) :
  snd (select name q p l s) = s.
Proof.
  unfold select, _getTable, try_catch, bind, getItem, lift, ret.
  destruct (read_ok s); simpl; [destruct (parse_item (ls s name)); simpl|];
    try case_match; reflexivity.
Qed.

Definition update_record (q : query) (u : list (string * val)) (r : record) : val :=
  if record_matches q r then VObj (merge_item (JObj r) u) else embed (JObj r).

Lemma map_r_update (q : query) (u : list (string * val)) (t : list record) :
  map_r (fun item =>
           b <-? item_matches q item ;;
           Ok (if b then VObj (merge_item item u) else embed item)) (map JObj t)
  = Ok (map (update_record q u) t).
Proof.
  induction t as [|r t IH]; simpl; [reflexivity|].
  rewrite item_matches_obj. simpl. rewrite IH. reflexivity.
Qed.

(** [update] on a readable and writable slot holding a table of records. *)
Lemma update_records (name : string) (q : query) (u : list (string * val))
  (t : list record) (s : state) :
  read_ok s = true -> write_ok s = true ->
  ls s name = Some (SJson (JArr (map JObj t))) ->
  update name q u s =
  select name q 1 10 (upd_ls s name (SJson (JArr (map to_json (map (update_record q u) t))))).
Proof.
  intros Hr Hw Hs.
  unfold update, _getTable, _setTable, try_catch, bind, getItem, setItem, lift, ret.
  rewrite Hr, Hs. simpl. rewrite map_r_update. simpl. rewrite Hw. reflexivity.
Qed.

(** ** C2: update *)

(** C2: on a readable, writable slot holding a table of records, [update(query,
    updates)] persists the table in which every matching record is replaced
    by [{ ...record, ...updates }] (serialised by [JSON.stringify]) and every
    other record is kept as it is; no other slot changes; it returns what
    [select(query)] (page 1, limit 10) returns on the updated state; and the
    merge is shallow: a field named in [updates] has the update's value, any
    other field keeps the record's value. *)
Theorem update_merge_persist (name : string) (q : query) (u : list (string * val))
  (t : list record) (s : state) :
  read_ok s = true -> write_ok s = true ->
  ls s name = Some (SJson (JArr (map JObj t))) ->
  NoDup (map fst u) -> Forall (fun r => NoDup (map fst r)) t ->
  let s' := snd (update name q u s) in
  ls s' name =
    Some (SJson (JArr (map (fun r => if record_matches q r
                                     then JObj (obj_to_json (merge_item (JObj r) u))
                                     else JObj r) t)))
  /\ (forall k, k <> name -> ls s' k = ls s k)
  /\ fst (update name q u s) = fst (select name q 1 10 s')
  /\ (forall r, In r t -> record_matches q r = true ->
      forall k, assoc k (merge_item (JObj r) u) =
                match assoc k u with
                | Some v => Some v
                | None => option_map embed (assoc k r)
                end).
Proof.
  intros Hr Hw Hs Hu Ht s'.
  assert (Hs' : s' = upd_ls s name (SJson (JArr (map to_json (map (update_record q u) t))))).
  { unfold s'. rewrite (update_records name q u t s Hr Hw Hs). apply select_state. }
  split; [|split; [|split]].
  - rewrite Hs'. unfold upd_ls. simpl. rewrite String.eqb_refl.
    rewrite map_map. do 3 f_equal. apply map_ext. intros r.
    unfold update_record. destruct (record_matches q r).
    + apply to_json_obj.
    + apply to_json_embed.
  - intros k Hk. rewrite Hs'. unfold upd_ls. simpl.
    now rewrite (proj2 (String.eqb_neq k name) Hk).
  - rewrite Hs', (update_records name q u t s Hr Hw Hs). reflexivity.
  - intros r Hin _ k. apply assoc_merge_item; [exact Hu|].
    rewrite Forall_forall in Ht. now apply Ht.
Qed.

Definition rec_name (n : string) : record := [("name", JStr n)].
Definition t_aba : list record := [rec_name "a"; rec_name "b"; rec_name "a"].
Definition st_aba : state := upd_ls empty_state "t" (SJson (JArr (map JObj t_aba))).
Definition q_a : query := [("name", VStr "a")].

Lemma update_merge_persist_witness :
  let s' := snd (update "t" q_a [("value", VNum 1)] st_aba) in
  ls s' "t" =
    Some (SJson (JArr (map (fun r => if record_matches q_a r
                                     then JObj (obj_to_json (merge_item (JObj r) [("value", VNum 1)]))
                                     else JObj r) t_aba)))
  /\ (forall k, k <> "t" -> ls s' k = ls st_aba k)
  /\ fst (update "t" q_a [("value", VNum 1)] st_aba) = fst (select "t" q_a 1 10 s')
  /\ (forall r, In r t_aba -> record_matches q_a r = true ->
      forall k, assoc k (merge_item (JObj r) [("value", VNum 1)]) =
                match assoc k [("value", VNum 1)] with
                | Some v => Some v
                | None => option_map embed (assoc k r)
                end).
Proof.
  apply update_merge_persist; try reflexivity.
  - repeat constructor. simpl. tauto.
  - repeat constructor; simpl; tauto.
Defined.

(** The merged object lists its keys in JavaScript order: an array-index
    key from the updates comes before the record's other keys; an existing
    key keeps its place. *)
Example merge_item_key_order :
  merge_item (JObj [("name", JStr "a"); ("id", JNum 1)]) [("7", VNum 0); ("id", VNum 2)] =
    [("7", VNum 0); ("name", VStr "a"); ("id", VNum 2)].
Proof. reflexivity. Qed.

Example update_aba :
  fst (update "t" q_a [("value", VNum 1)] st_aba) =
  Ok [JObj [("name", JStr "a"); ("value", JNum 1)];
      JObj [("name", JStr "a"); ("value", JNum 1)]].
Proof. reflexivity. Qed.

(** ** C3: delete *)

Lemma length_filter_split {A} (p : A -> bool) (l : list A) :
  (length (filter p l) + length (filter (fun x => negb (p x)) l))%nat = length l.
Proof.
  induction l as [|x t IH]; simpl; [reflexivity|].
  destruct (p x); simpl; lia.
Qed.

(** C3: on a readable, writable slot holding a table of records,
    [delete(query)] persists exactly the records that do not match (in
    stored order), changes no other slot, and returns the original length
    minus the retained length, which is the number of matching records. *)
Theorem delete_persist_count (name : string) (q : query) (t : list record) (s : state) :
  read_ok s = true -> write_ok s = true ->
  ls s name = Some (SJson (JArr (map JObj t))) ->
  let kept := filter (fun r => negb (record_matches q r)) t in
  delete name q s =
    (Ok (Z.of_nat (length t) - Z.of_nat (length kept)),
     upd_ls s name (SJson (JArr (map JObj kept))))
  /\ Z.of_nat (length t) - Z.of_nat (length kept)
     = Z.of_nat (length (filter (record_matches q) t)).
Proof.
  intros Hr Hw Hs kept. split.
  - unfold delete, _getTable, _setTable, try_catch, bind, getItem, setItem, lift, ret.
    rewrite Hr, Hs. simpl. rewrite filter_r_not_matches. simpl. rewrite Hw.
    rewrite !length_map, map_to_json_embed.
    reflexivity.
  - pose proof (length_filter_split (record_matches q) t). unfold kept. lia.
Qed.

Lemma delete_persist_count_witness :
  let kept := filter (fun r => negb (record_matches q_a r)) t_aba in
  delete "t" q_a st_aba =
    (Ok (Z.of_nat (length t_aba) - Z.of_nat (length kept)),
     upd_ls st_aba "t" (SJson (JArr (map JObj kept))))
  /\ Z.of_nat (length t_aba) - Z.of_nat (length kept)
     = Z.of_nat (length (filter (record_matches q_a) t_aba)).
Proof. apply delete_persist_count; reflexivity. Defined.

Example delete_aba :
  fst (delete "t" q_a st_aba) = Ok 2 /\
  ls (snd (delete "t" q_a st_aba)) "t" = Some (SJson (JArr [JObj (rec_name "b")])).
Proof. split; reflexivity. Qed.

(** ** C9: a missing field against a query field *)

(** C9 (as stated): a record lacking a field named in the query never
    matches, whatever value the query gives that field.  False: for the
    query [{ name: undefined }], [item.name === query.name] is
    [undefined === undefined], so a record without [name] matches. *)
Lemma missing_field_counterexample :
  item_matches [("name", VUndef)] (JObj [("n", JNum 1)]) = Ok true /\
  fst (select "t" [("name", VUndef)] 1 10 st5) = Ok (map JObj t5).
Proof. split; reflexivity. Qed.

(** A value that [JSON.parse] could produce or a caller builds from such
    values: neither [undefined] nor a built-in. *)
Definition json_like (v : val) : bool :=
  match v with
  | VUndef | VBuiltin _ => false
  | _ => true
  end.

(** C9 (amended): let the query name a field [k] that the record does not
    own.  The record's [k] reads as what it inherits from
    [Object.prototype] ([undefined] unless [k] is a member of
    [Object.prototype]); the record does not match when the query's value
    for [k] is not strictly equal to that, in particular whenever the
    query's value is [null], a boolean, a number, a string, an object or
    an array; and a query value [undefined] is satisfied by the missing
    field exactly when [k] is not a member of [Object.prototype]
    ([{ name: undefined }] is, [{ toString: undefined }] is not). *)
Theorem missing_field_no_match (q : query) (r : record) (k : string) :
  assoc k r = None -> In k (query_keys q) ->
  field r k = inherited k /\
  (strict_eq (inherited k) (query_get q k) = false ->
   item_matches q (JObj r) = Ok false) /\
  (json_like (query_get q k) = true -> item_matches q (JObj r) = Ok false) /\
  (query_get q k = VUndef ->
   (strict_eq (field r k) (query_get q k) = true <-> inherited k = VUndef)).
Proof.
  intros Hr Hk.
  assert (Hf : field r k = inherited k) by (unfold field; now rewrite Hr).
  assert (Hno : strict_eq (inherited k) (query_get q k) = false ->
                item_matches q (JObj r) = Ok false).
  { intros Hne. rewrite item_matches_obj. f_equal.
    unfold record_matches.
    destruct (forallb _ _) eqn:E; [|reflexivity].
    rewrite forallb_forall in E. specialize (E k Hk).
    rewrite Hf, Hne in E. discriminate. }
  split; [exact Hf|]. split; [exact Hno|]. split.
  - intros Hj. apply Hno. unfold inherited.
    destruct (String.eqb k "constructor"); [|destruct (String.eqb k "__proto__");
      [|destruct (existsb _ _)]];
      destruct (query_get q k); try reflexivity; discriminate.
  - intros ->. rewrite Hf. unfold inherited.
    destruct (String.eqb k "constructor"); [|destruct (String.eqb k "__proto__");
      [|destruct (existsb _ _)]]; simpl; split; congruence.
Qed.

Lemma missing_field_no_match_witness :
  assoc "name" [("n", JNum 1)] = None /\ In "name" (query_keys q_a) /\
  (field [("n", JNum 1)] "name" = inherited "name" /\
   (strict_eq (inherited "name") (query_get q_a "name") = false ->
    item_matches q_a (JObj [("n", JNum 1)]) = Ok false) /\
   (json_like (query_get q_a "name") = true ->
    item_matches q_a (JObj [("n", JNum 1)]) = Ok false) /\
   (query_get q_a "name" = VUndef ->
    (strict_eq (field [("n", JNum 1)] "name") (query_get q_a "name") = true <->
     inherited "name" = VUndef))).
Proof.
  split; [reflexivity|]. split; [simpl; tauto|].
  apply (missing_field_no_match q_a [("n", JNum 1)] "name");
    [reflexivity | simpl; tauto].
Defined.

Example missing_inherited_field :
  item_matches [("toString", VUndef)] (JObj [("n", JNum 1)]) = Ok false /\
  fst (select "t" [("toString", VUndef)] 1 10 st5) = Ok [] /\
  fst (delete "t" [("constructor", VUndef)] st15) = Ok 0 /\
  item_matches [("toString", VBuiltin "Object.prototype.toString")]
               (JObj [("n", JNum 1)]) = Ok true.
Proof. repeat split; reflexivity. Qed.

(** ** C6: one pass of the pull-and-replace sync *)

Lemma fetchAndStoreData_eq (dataTableName : string) (r : response) (s : state) :
  fetchAndStoreData dataTableName r s =
  (Ok tt, match r with
          | Body _ (SJson j) => if write_ok s then upd_ls s dataTableName (SJson j) else s
          | _ => s
          end).
Proof.
  destruct r as [|st [j|txt]];
    unfold fetchAndStoreData, _setTable, try_catch, bind, throw, ret, setItem; simpl;
    try reflexivity.
  rewrite stringify_embed. destruct (write_ok s); reflexivity.
Qed.

(** C6 (amended): one pass of [fetchAndStoreData] never raises; when
    [fetch] resolves with a body that parses as JSON, whatever its HTTP
    status (4xx and 5xx included), and the slot is writable, the target slot
    is replaced by exactly that body (whatever it held before, nothing else
    changes); on a network failure, a body that is not JSON, or a failing
    write, the state is left exactly as it was. *)
Theorem fetch_pass_replace_or_keep (dataTableName : string) (r : response) (s : state) :
  fst (fetchAndStoreData dataTableName r s) = Ok tt /\
  snd (fetchAndStoreData dataTableName r s) =
    match r with
    | Body _ (SJson j) => if write_ok s then upd_ls s dataTableName (SJson j) else s
    | _ => s
    end.
Proof. rewrite fetchAndStoreData_eq. split; reflexivity. Qed.

Definition body_id1 : json := JArr [JObj [("id", JNum 1); ("x", JStr "a")]].

(** C6 (as stated): a failed request leaves the persisted contents
    untouched.  False for a request that fails with an HTTP error status:
    [response.ok] is never checked, so a 500 response with a JSON error
    body replaces the fifteen stored records by that body. *)
Lemma fetch_error_status_counterexample :
  let r := Body 500 (SJson (JObj [("error", JStr "Internal Server Error")])) in
  ls st15 "t" <> ls (snd (fetchAndStoreData "t" r st15)) "t" /\
  ls (snd (fetchAndStoreData "t" r st15)) "t" =
    Some (SJson (JObj [("error", JStr "Internal Server Error")])).
Proof. split; [discriminate | reflexivity]. Qed.

Example fetch_pass_discards_prior :
  ls (snd (fetchAndStoreData "t" (Body 200 (SJson body_id1)) st15)) "t" = Some (SJson body_id1).
Proof. reflexivity. Qed.

(** ** C7: what the operations write into the table's slot *)

Section Preserves.
Variable name : string.

(** The slot [name] of [s'] is the one of [s], or holds a JSON array. *)
Definition arr_or_same (s s' : state) : Prop :=
  ls s' name = ls s name \/ exists l, ls s' name = Some (SJson (JArr l)).

Definition preserves {A} (m : M A) : Prop := forall s, arr_or_same s (snd (m s)).

Lemma arr_or_same_refl (s : state) : arr_or_same s s.
Proof. now left. Qed.

Lemma arr_or_same_trans (s1 s2 s3 : state) :
  arr_or_same s1 s2 -> arr_or_same s2 s3 -> arr_or_same s1 s3.
Proof.
  intros [H12|H12] [H23|H23]; unfold arr_or_same.
  - left. congruence.
  - right. exact H23.
  - right. now rewrite H23.
  - right. exact H23.
Qed.

Lemma pres_ret {A} (a : A) : preserves (ret a).
Proof. intros s. apply arr_or_same_refl. Qed.

Lemma pres_throw {A} (e : exn) : preserves (A := A) (throw e).
Proof. intros s. apply arr_or_same_refl. Qed.

Lemma pres_lift {A} (r : result A) : preserves (lift r).
Proof. intros s. apply arr_or_same_refl. Qed.

Lemma pres_bind {A B} (m : M A) (f : A -> M B) :
  preserves m -> (forall a, preserves (f a)) -> preserves (bind m f).
Proof.
  intros Hm Hf s. unfold bind. specialize (Hm s).
  destruct (m s) as [[a|e] s1]; simpl in *; [|exact Hm].
  eapply arr_or_same_trans; [exact Hm | apply Hf].
Qed.

Lemma pres_try {A} (m : M A) (h : exn -> M A) :
  preserves m -> (forall e, preserves (h e)) -> preserves (try_catch m h).
Proof.
  intros Hm Hh s. unfold try_catch. specialize (Hm s).
  destruct (m s) as [[a|e] s1]; simpl in *; [exact Hm|].
  eapply arr_or_same_trans; [exact Hm | apply Hh].
Qed.

Lemma pres_getItem (k : string) : preserves (getItem k).
Proof. intros s. unfold getItem. destruct (read_ok s); apply arr_or_same_refl. Qed.

Lemma pres_date_now : preserves date_now.
Proof. intros s. apply arr_or_same_refl. Qed.

Lemma pres_heap_get (l : loc) : preserves (heap_get l).
Proof. intros s. unfold heap_get. destruct (heap s l); apply arr_or_same_refl. Qed.

Lemma pres_heap_set_prop (l : loc) (k : string) (v : val) : preserves (heap_set_prop l k v).
Proof. intros s. unfold heap_set_prop. destruct (heap s l); now left. Qed.

Lemma pres_setItem_arr (t : string) (l : list val) :
  preserves (setItem t (stringify (VArr l))).
Proof.
  intros s. unfold setItem.
  destruct (write_ok s); simpl; [|now left].
  unfold arr_or_same, upd_ls. simpl. destruct (String.eqb name t).
  - right. eexists. reflexivity.
  - left. reflexivity.
Qed.

End Preserves.

Create HintDb pres.
#[local] Hint Resolve pres_ret pres_throw pres_lift pres_getItem pres_date_now
  pres_heap_get pres_heap_set_prop pres_setItem_arr : pres.

Ltac solve_pres :=
  repeat (apply pres_bind || apply pres_try || intros);
  auto with pres.

Lemma pres_getTable (name t : string) : preserves name (_getTable t).
Proof. unfold _getTable. solve_pres. Qed.

Lemma pres_select (name t : string) (q : query) (p l : Z) : preserves name (select t q p l).
Proof. unfold select. apply pres_bind; [apply pres_getTable | solve_pres]. Qed.

#[local] Hint Resolve pres_getTable pres_select : pres.

Lemma pres_run_op (name t : string) (o : op) : preserves name (run_op t o).
Proof.
  destruct o; unfold run_op, fmap, insert, update, delete, clear; solve_pres.
Qed.

(** C7 (as stated): after every operation, sync passes included, the slot
    holds a JSON array.  False: a pass whose response body is [{}] stores
    [{}]; every later [select] then throws a [TypeError] ([table.filter] is
    not a function). *)
Lemma slot_array_counterexample :
  let s' := snd (fetchAndStoreData "t" (Body 200 (SJson (JObj []))) empty_state) in
  ls s' "t" = Some (SJson (JObj [])) /\
  ~ (exists l, ls s' "t" = Some (SJson (JArr l))) /\
  fst (select "t" [] 1 10 s') = Throw TypeError.
Proof.
  simpl. split; [reflexivity|]. split; [|reflexivity].
  intros [l Hl]. discriminate.
Qed.

(** C7 (amended): [insert], [select], [update], [delete] and [clear] either
    leave the table's slot as it was or write a JSON array into it; a
    [fetchData] pass either leaves the slot as it was or writes the parsed
    response body verbatim, which is an array only if the body is one. *)
Theorem ops_write_only_arrays (name : string) (o : op) (r : response) (s : state) :
  (ls (snd (run_op name o s)) name = ls s name \/
   exists l, ls (snd (run_op name o s)) name = Some (SJson (JArr l))) /\
  (ls (snd (fetchAndStoreData name r s)) name = ls s name \/
   exists st j, r = Body st (SJson j) /\
             ls (snd (fetchAndStoreData name r s)) name = Some (SJson j)).
Proof.
  split; [apply pres_run_op|].
  rewrite fetchAndStoreData_eq. simpl.
  destruct r as [|st [j|txt]]; try (left; reflexivity).
  destruct (write_ok s); [|left; reflexivity].
  right. exists st, j. split; [reflexivity|].
  unfold upd_ls. simpl. now rewrite String.eqb_refl.
Qed.

(** ** C5: a failing read behaves as an empty table *)

(** Reading the table fails: [getItem] throws, or the slot holds text that
    [JSON.parse] rejects. *)
Definition read_fails (s : state) (name : string) : Prop :=
  read_ok s = false \/ exists txt, ls s name = Some (SText txt) /\ txt <> "".

(** The same environment with the table's slot empty and readable. *)
Definition emptied (s : state) (name : string) : state :=
  mkState (fun k => if String.eqb k name then None else ls s k)
          true (write_ok s) (now s) (heap s).

(** The item passed to [insert] is an object the caller holds. *)
Definition op_wf (s : state) (o : op) : Prop :=
  match o with
  | OInsert l => heap s l <> None
  | _ => True
  end.

Definition op_writes (o : op) : bool :=
  match o with
  | OSelect _ _ _ => false
  | _ => true
  end.

Lemma bind_ok {A B} (m : M A) (f : A -> M B) (s s' : state) (a : A) :
  m s = (Ok a, s') -> bind m f s = f a s'.
Proof. intros H. unfold bind. now rewrite H. Qed.

Lemma getTable_failed (name : string) (s : state) :
  read_fails s name -> _getTable name s = (Ok (JArr []), s).
Proof.
  intros [Hr|[txt [Hs Ht]]];
    unfold _getTable, try_catch, bind, getItem, lift, ret.
  - now rewrite Hr.
  - destruct (read_ok s); [|reflexivity]. rewrite Hs. simpl.
    now rewrite (proj2 (String.eqb_neq txt "") Ht).
Qed.

Lemma getTable_emptied (name : string) (s : state) :
  _getTable name (emptied s name) = (Ok (JArr []), emptied s name).
Proof.
  unfold _getTable, try_catch, bind, getItem, lift, ret, emptied. simpl.
  now rewrite String.eqb_refl.
Qed.

Lemma getTable_empty_written (name : string) (s : state) :
  _getTable name (upd_ls s name (SJson (JArr []))) =
  (Ok (JArr []), upd_ls s name (SJson (JArr []))).
Proof.
  unfold _getTable, try_catch, bind, getItem, lift, ret, upd_ls. simpl.
  destruct (read_ok s); [|reflexivity]. now rewrite String.eqb_refl.
Qed.

Section OnEmpty.
Variable name : string.
Variable s : state.
Hypothesis Hg : _getTable name s = (Ok (JArr []), s).

Definition write_empty (s : state) : state :=
  if write_ok s then upd_ls s name (SJson (JArr [])) else s.

Lemma select_on_empty (q : query) (p l : Z) : select name q p l s = (Ok [], s).
Proof.
  unfold select. rewrite (bind_ok _ _ _ _ _ Hg).
  unfold bind, lift, ret. simpl. unfold js_slice.
  now rewrite skipn_nil, firstn_nil.
Qed.

Lemma setTable_empty : _setTable name (VArr []) s = (Ok tt, write_empty s).
Proof.
  unfold _setTable, try_catch, setItem, write_empty, ret.
  destruct (write_ok s); reflexivity.
Qed.

Lemma update_on_empty (q : query) (u : list (string * val)) :
  update name q u s = (Ok [], write_empty s).
Proof.
  unfold update. rewrite (bind_ok _ _ _ _ _ Hg).
  unfold bind at 1, lift. simpl.
  unfold bind at 1. rewrite setTable_empty.
  unfold write_empty. destruct (write_ok s).
  - unfold select. rewrite (bind_ok _ _ _ _ _ (getTable_empty_written name s)).
    reflexivity.
  - exact (select_on_empty q 1 10).
Qed.

Lemma delete_on_empty (q : query) : delete name q s = (Ok 0, write_empty s).
Proof.
  unfold delete. rewrite (bind_ok _ _ _ _ _ Hg).
  unfold bind at 1 2, lift. simpl.
  unfold bind at 1. rewrite setTable_empty. reflexivity.
Qed.

Lemma insert_on_empty (l : loc) (o : list (string * val)) :
  heap s l = Some o ->
  let o' := obj_set o "id" (VNum (now s)) in
  let s1 := upd_heap s l o' in
  insert name l s =
  (Ok l, if write_ok s then upd_ls s1 name (stringify (VArr [VObj o'])) else s1).
Proof.
  intros Hh o' s1.
  unfold insert. rewrite (bind_ok _ _ _ _ _ Hg).
  unfold bind, date_now, heap_set_prop, lift, heap_get, _setTable, try_catch,
    setItem, ret.
  rewrite Hh. simpl. unfold upd_heap at 2. simpl. rewrite Nat.eqb_refl.
  unfold s1, upd_heap. simpl. destruct (write_ok s); reflexivity.
Qed.

End OnEmpty.

Lemma clear_eq (name : string) (s : state) : clear name s = (Ok tt, write_empty name s).
Proof.
  unfold clear, _setTable, try_catch, setItem, write_empty, ret.
  destruct (write_ok s); reflexivity.
Qed.

(** C5: when reading the table fails ([getItem] throws, or the slot holds
    text that is not JSON), every public Table Store operation completes
    without an exception and behaves as on the same environment with the
    table's slot empty: the same result, the same caller objects, and, for
    the operations that write when the write succeeds, the same storage. *)
Theorem read_failure_as_empty (name : string) (o : op) (s : state) :
  read_fails s name -> op_wf s o ->
  (exists v, fst (run_op name o s) = Ok v) /\
  fst (run_op name o s) = fst (run_op name o (emptied s name)) /\
  (forall l, heap (snd (run_op name o s)) l = heap (snd (run_op name o (emptied s name))) l) /\
  (op_writes o = true -> write_ok s = true ->
   forall k, ls (snd (run_op name o s)) k = ls (snd (run_op name o (emptied s name))) k).
Proof.
  intros Hf Hwf.
  pose proof (getTable_failed name s Hf) as Hg1.
  pose proof (getTable_emptied name s) as Hg2.
  destruct o as [item|q p lim|q u|q|]; unfold run_op, fmap.
  - simpl in Hwf. destruct (heap s item) as [ob|] eqn:Hh; [|congruence].
    assert (Hh' : heap (emptied s name) item = Some ob) by exact Hh.
    rewrite (bind_ok _ _ _ _ _ (insert_on_empty name s Hg1 item ob Hh)).
    rewrite (bind_ok _ _ _ _ _ (insert_on_empty name _ Hg2 item ob Hh')).
    unfold ret; simpl.
    split; [eexists; reflexivity|]. split; [reflexivity|]. split.
    + intros l. destruct (write_ok s); reflexivity.
    + intros _ Hw k. rewrite Hw. unfold upd_ls, upd_heap; simpl.
      destruct (String.eqb k name); reflexivity.
  - rewrite (bind_ok _ _ _ _ _ (select_on_empty name s Hg1 q p lim)).
    rewrite (bind_ok _ _ _ _ _ (select_on_empty name _ Hg2 q p lim)).
    unfold ret; simpl.
    split; [eexists; reflexivity|]. split; [reflexivity|]. split.
    + reflexivity.
    + discriminate.
  - rewrite (bind_ok _ _ _ _ _ (update_on_empty name s Hg1 q u)).
    rewrite (bind_ok _ _ _ _ _ (update_on_empty name _ Hg2 q u)).
    unfold ret, write_empty; simpl.
    split; [eexists; reflexivity|]. split; [reflexivity|]. split.
    + intros l. destruct (write_ok s); reflexivity.
    + intros _ Hw k. rewrite Hw. unfold upd_ls; simpl.
      destruct (String.eqb k name); reflexivity.
  - rewrite (bind_ok _ _ _ _ _ (delete_on_empty name s Hg1 q)).
    rewrite (bind_ok _ _ _ _ _ (delete_on_empty name _ Hg2 q)).
    unfold ret, write_empty; simpl.
    split; [eexists; reflexivity|]. split; [reflexivity|]. split.
    + intros l. destruct (write_ok s); reflexivity.
    + intros _ Hw k. rewrite Hw. unfold upd_ls; simpl.
      destruct (String.eqb k name); reflexivity.
  - rewrite (bind_ok _ _ _ _ _ (clear_eq name s)).
    rewrite (bind_ok _ _ _ _ _ (clear_eq name (emptied s name))).
    unfold ret, write_empty; simpl.
    split; [eexists; reflexivity|]. split; [reflexivity|]. split.
    + intros l. destruct (write_ok s); reflexivity.
    + intros _ Hw k. rewrite Hw. unfold upd_ls; simpl.
      destruct (String.eqb k name); reflexivity.
Qed.

Definition st_corrupt : state :=
  upd_heap (upd_ls empty_state "t" (SText "{oops")) 7%nat [("name", VStr "x")].

Lemma read_failure_as_empty_witness :
  read_fails st_corrupt "t" /\
  (exists v, fst (run_op "t" (OInsert 7%nat) st_corrupt) = Ok v) /\
  fst (run_op "t" (OInsert 7%nat) st_corrupt) = fst (run_op "t" (OInsert 7%nat) (emptied st_corrupt "t")) /\
  (forall l, heap (snd (run_op "t" (OInsert 7%nat) st_corrupt)) l =
             heap (snd (run_op "t" (OInsert 7%nat) (emptied st_corrupt "t"))) l) /\
  (op_writes (OInsert 7%nat) = true -> write_ok st_corrupt = true ->
   forall k, ls (snd (run_op "t" (OInsert 7%nat) st_corrupt)) k =
             ls (snd (run_op "t" (OInsert 7%nat) (emptied st_corrupt "t"))) k).
Proof.
  split.
  - right. exists "{oops". split; [reflexivity | discriminate].
  - apply read_failure_as_empty.
    + right. exists "{oops". split; [reflexivity | discriminate].
    + simpl. discriminate.
Defined.

(** ** C10: [insert] overwrites [item.id] in place *)

Lemma getTable_pure (name : string) (s : state) :
  exists j, _getTable name s = (Ok j, s).
Proof.
  unfold _getTable, try_catch, bind, getItem, lift, ret.
  destruct (read_ok s); [|eexists; reflexivity].
  destruct (parse_item (ls s name)); eexists; reflexivity.
Qed.

(** [insert] after [_getTable] returned [j]. *)
Lemma insert_eq (name : string) (l : loc) (o : list (string * val)) (j : json)
  (s : state) :
  _getTable name s = (Ok j, s) -> heap s l = Some o ->
  let o' := obj_set o "id" (VNum (now s)) in
  let s1 := upd_heap s l o' in
  insert name l s =
  match j with
  | JArr arr =>
      (Ok l, if write_ok s
             then upd_ls s1 name (stringify (VArr (map embed arr ++ [VObj o'])))
             else s1)
  | _ => (Throw TypeError, s1)
  end.
Proof.
  intros Hg Hh o' s1.
  unfold insert. rewrite (bind_ok _ _ _ _ _ Hg).
  unfold bind, date_now, heap_set_prop, lift, heap_get, _setTable, try_catch,
    setItem, ret.
  rewrite Hh. simpl.
  destruct j; try reflexivity.
  unfold upd_heap at 2. simpl. rewrite Nat.eqb_refl.
  unfold s1, upd_heap. simpl. destruct (write_ok s); reflexivity.
Qed.

(** The table reads as an array (absent, unreadable and unparseable slots
    read as [[]]). *)
Definition table_reads_array (s : state) (name : string) : Prop :=
  exists arr, _getTable name s = (Ok (JArr arr), s).

(** C10: for every item, also one that already has an [id], [insert]
    overwrites the caller's object in place so that its [id] is the value of
    [Date.now()], whatever it was before (this happens even when [insert]
    then throws); no other caller object changes; and when the table reads
    as an array, [insert] returns that same object (the same reference). *)
Theorem insert_overwrites_id (name : string) (l : loc) (o : list (string * val))
  (s : state) :
  heap s l = Some o ->
  let s' := snd (insert name l s) in
  heap s' l = Some (obj_set o "id" (VNum (now s))) /\
  assoc "id" (obj_set o "id" (VNum (now s))) = Some (VNum (now s)) /\
  (forall l', l' <> l -> heap s' l' = heap s l') /\
  (table_reads_array s name -> fst (insert name l s) = Ok l).
Proof.
  intros Hh s'.
  destruct (getTable_pure name s) as [j Hg].
  pose proof (insert_eq name l o j s Hg Hh) as Hi. simpl in Hi.
  unfold s'. rewrite Hi.
  split; [|split; [apply assoc_obj_set_eq|split]].
  - destruct j; try destruct (write_ok s); simpl; now rewrite Nat.eqb_refl.
  - intros l' Hne.
    destruct j; try destruct (write_ok s); simpl;
      now rewrite (proj2 (Nat.eqb_neq l' l) Hne).
  - intros [arr Ha]. rewrite Hg in Ha. injection Ha as ->. reflexivity.
Qed.

Definition st_item : state :=
  mkState (fun _ => None) true true 1000
          (fun l => if Nat.eqb l 1 then Some [("id", VNum 5); ("name", VStr "x")] else None).

Lemma insert_overwrites_id_witness :
  let s' := snd (insert "t" 1%nat st_item) in
  heap s' 1%nat = Some (obj_set [("id", VNum 5); ("name", VStr "x")] "id" (VNum 1000)) /\
  assoc "id" (obj_set [("id", VNum 5); ("name", VStr "x")] "id" (VNum 1000)) = Some (VNum 1000) /\
  (forall l', l' <> 1%nat -> heap s' l' = heap st_item l') /\
  (table_reads_array st_item "t" -> fst (insert "t" 1%nat st_item) = Ok 1%nat).
Proof. exact (insert_overwrites_id "t" 1%nat _ st_item eq_refl). Defined.

(** ** C4: inserting N records, then selecting them *)

(** [insert] for each [(item, t)] in turn, the wall clock reading [t] at
    that insertion. *)
Fixpoint insert_run (name : string) (xs : list (loc * Z)) : M (list loc) :=
  match xs with
  | [] => ret []
  | (l, t) :: rest =>
      set_clock t ;;;
      x <- insert name l ;;
      r <- insert_run name rest ;;
      ret (x :: r)
  end.

(** The caller's object [l] of heap [h] after [item.id = t]. *)
Definition stamped (h : loc -> option (list (string * val))) (l : loc) (t : Z)
  : list (string * val) :=
  match h l with Some o => obj_set o "id" (VNum t) | None => [] end.

Lemma obj_to_json_cons (k : string) (x : val) (t : list (string * val)) :
  obj_to_json ((k, x) :: t) =
  if json_omits x then obj_to_json t else (k, to_json x) :: obj_to_json t.
Proof. reflexivity. Qed.

Lemma assoc_obj_to_json (o : list (string * val)) (k : string) (x : val) :
  assoc k o = Some x -> json_omits x = false ->
  assoc k (obj_to_json o) = Some (to_json x).
Proof.
  induction o as [|[k' y] t IH]; simpl; intros H Hx; [discriminate|].
  rewrite obj_to_json_cons.
  destruct (String.eqb_spec k k') as [->|Hne].
  - injection H as ->. rewrite Hx. simpl. now rewrite String.eqb_refl.
  - destruct (json_omits y); [now apply IH|]. simpl.
    rewrite (proj2 (String.eqb_neq k k') Hne). now apply IH.
Qed.

Lemma assoc_obj_to_json_set (o : list (string * val)) (k : string) (n : Z) :
  assoc k (obj_to_json (obj_set o k (VNum n))) = Some (JNum n).
Proof. apply (assoc_obj_to_json _ k (VNum n)); [apply assoc_obj_set_eq | reflexivity]. Qed.

Lemma getTable_readable (name : string) (s : state) (j : json) :
  read_ok s = true -> parse_item (ls s name) = Ok j -> _getTable name s = (Ok j, s).
Proof.
  intros Hr Hp. unfold _getTable, try_catch, bind, getItem, lift, ret.
  rewrite Hr. simpl. now rewrite Hp.
Qed.

Lemma insert_run_cons (name : string) (l : loc) (t : Z) (xs : list (loc * Z)) (s : state) :
  insert_run name ((l, t) :: xs) s =
  (x <- insert name l ;; r <- insert_run name xs ;; ret (x :: r))
    (mkState (ls s) (read_ok s) (write_ok s) t (heap s)).
Proof. reflexivity. Qed.

Lemma insert_run_table (name : string) (xs : list (loc * Z)) :
  forall (pre : list json) (s : state),
  read_ok s = true -> write_ok s = true ->
  parse_item (ls s name) = Ok (JArr pre) ->
  NoDup (map fst xs) -> (forall l, In l (map fst xs) -> heap s l <> None) ->
  let s' := snd (insert_run name xs s) in
  read_ok s' = true /\
  parse_item (ls s' name) =
    Ok (JArr (pre ++ map (fun '(l, t) => JObj (obj_to_json (stamped (heap s) l t))) xs)).
Proof.
  induction xs as [|[l t] xs IH]; intros pre s Hr Hw Hp Hnd Hin s'.
  - split; [exact Hr|]. unfold s'. simpl. rewrite app_nil_r. exact Hp.
  - simpl in Hnd. inversion Hnd as [|? ? Hnl Hnd']; subst.
    destruct (heap s l) as [o|] eqn:Hh;
      [|exfalso; apply (Hin l); [left; reflexivity | exact Hh]].
    set (sc := mkState (ls s) (read_ok s) (write_ok s) t (heap s)).
    assert (Hg : _getTable name sc = (Ok (JArr pre), sc))
      by (apply getTable_readable; assumption).
    assert (Hh' : heap sc l = Some o) by exact Hh.
    pose proof (insert_eq name l o (JArr pre) sc Hg Hh') as Hi. simpl in Hi.
    set (s2 := upd_ls (upd_heap sc l (obj_set o "id" (VNum t))) name
                 (SJson (JArr (map to_json (map embed pre ++ [VObj (obj_set o "id" (VNum t))]))))).
    assert (Hs3 : s' = snd (insert_run name xs s2)).
    { unfold s'. rewrite insert_run_cons. fold sc.
      unfold bind at 1. rewrite Hi. simpl write_ok. rewrite Hw. fold s2.
      unfold bind. destruct (insert_run name xs s2) as [[r|e] s3]; reflexivity. }
    assert (Hls2 : ls s2 name =
              Some (SJson (JArr (pre ++ [JObj (obj_to_json (obj_set o "id" (VNum t)))])))).
    { unfold s2, upd_ls. simpl. rewrite String.eqb_refl.
      rewrite map_app, map_to_json_embed. reflexivity. }
    assert (Hheap2 : forall l', l' <> l -> heap s2 l' = heap s l').
    { intros l' Hne. unfold s2, upd_ls, upd_heap. simpl.
      now rewrite (proj2 (Nat.eqb_neq l' l) Hne). }
    destruct (IH (pre ++ [JObj (obj_to_json (obj_set o "id" (VNum t)))])%list s2)
      as [Hr' Hls']; try assumption.
    + rewrite Hls2. reflexivity.
    + intros l' Hl'. rewrite Hheap2 by (intros ->; tauto).
      apply Hin. right. exact Hl'.
    + rewrite Hs3. split; [exact Hr'|]. rewrite Hls', <- app_assoc. simpl.
      replace (stamped (heap s) l t) with (obj_set o "id" (VNum t))
        by (unfold stamped; now rewrite Hh).
      do 4 f_equal.
      apply map_ext_in. intros [l' t'] Hl'. unfold stamped. simpl.
      rewrite (proj2 (Nat.eqb_neq l' l)); [reflexivity|].
      intros ->. apply Hnl. apply (in_map fst) in Hl'. exact Hl'.
Qed.

Lemma filter_r_empty_query (l : list json) : filter_r (item_matches []) l = Ok l.
Proof. induction l as [|x t IH]; simpl; [reflexivity|]. now rewrite IH. Qed.

Lemma select_all (name : string) (l : list json) (lim : Z) (s : state) :
  _getTable name s = (Ok (JArr l), s) -> Z.of_nat (length l) <= lim ->
  fst (select name [] 1 lim s) = Ok l.
Proof.
  intros Hg Hl. unfold select. rewrite (bind_ok _ _ _ _ _ Hg).
  unfold bind, lift, ret. simpl. rewrite filter_r_empty_query. simpl.
  f_equal. unfold js_slice, js_rel. simpl (0 <? 0).
  rewrite (proj2 (Z.ltb_ge lim 0)) by lia.
  rewrite (Z.min_l 0) by lia. rewrite (Z.min_r lim) by lia.
  rewrite Z.sub_0_r, Nat2Z.id. simpl skipn. apply firstn_all.
Qed.

Lemma NoDup_map_inj {A B} (f : A -> B) (l : list A) :
  (forall x y, f x = f y -> x = y) -> (NoDup (map f l) <-> NoDup l).
Proof.
  intros Hf. split; [apply NoDup_map_inv|].
  induction 1 as [|x t Hx _ IH]; simpl; constructor; [|exact IH].
  intros Hin. apply in_map_iff in Hin as [y [Hy Hy']].
  apply Hf in Hy. subst. contradiction.
Qed.

(** C4 (as stated): inserting N distinct records into an empty table and
    selecting with [{}], page 1 and [limit >= N] gives the N records in
    insertion order with pairwise distinct ids.  False: the id is the
    [Date.now()] reading, so two inserts within one clock tick get the
    same id. *)
Definition st_two : state :=
  mkState (fun _ => None) true true 0
          (fun l => if Nat.eqb l 1 then Some [("name", VStr "a")]
                    else if Nat.eqb l 2 then Some [("name", VStr "b")] else None).

Lemma insert_ids_counterexample :
  let s' := snd (insert_run "t" [(1%nat, 1000); (2%nat, 1000)] st_two) in
  fst (select "t" [] 1 10 s') =
    Ok [JObj [("name", JStr "a"); ("id", JNum 1000)];
        JObj [("name", JStr "b"); ("id", JNum 1000)]] /\
  ~ NoDup (map (fun r => match r with JObj o => assoc "id" o | _ => None end)
               [JObj [("name", JStr "a"); ("id", JNum 1000)];
                JObj [("name", JStr "b"); ("id", JNum 1000)]]).
Proof.
  split; [reflexivity|].
  simpl. intros Hnd. inversion Hnd as [|? ? Hn _]. apply Hn. left. reflexivity.
Qed.

(** C4 (amended): inserting N distinct caller objects, one after the other,
    into an empty table (storage readable and writable), then selecting with
    [{}], page 1 and [limit >= N] returns N records in insertion order: the
    i-th is the i-th object with [id] set to the clock reading at its
    insertion, so every id is a non-null number; the ids are pairwise
    distinct exactly when those clock readings are. *)
Theorem insert_all_then_select (name : string) (xs : list (loc * Z)) (lim : Z)
  (s : state) :
  read_ok s = true -> write_ok s = true ->
  parse_item (ls s name) = Ok (JArr []) ->
  NoDup (map fst xs) -> (forall l, In l (map fst xs) -> heap s l <> None) ->
  Z.of_nat (length xs) <= lim ->
  let recs := map (fun '(l, t) => obj_to_json (stamped (heap s) l t)) xs in
  let s' := snd (insert_run name xs s) in
  fst (select name [] 1 lim s') = Ok (map JObj recs) /\
  map (assoc "id") recs = map (fun p => Some (JNum (snd p))) xs /\
  (NoDup (map (assoc "id") recs) <-> NoDup (map snd xs)).
Proof.
  intros Hr Hw Hp Hnd Hin Hlim recs s'.
  destruct (insert_run_table name xs [] s Hr Hw Hp Hnd Hin) as [Hr' Hp'].
  fold s' in Hr', Hp'. simpl app in Hp'.
  assert (Hrecs : map (fun '(l, t) => JObj (obj_to_json (stamped (heap s) l t))) xs
                  = map JObj recs).
  { unfold recs. rewrite map_map. apply map_ext. now intros [l t]. }
  assert (Hids : map (assoc "id") recs = map (fun p => Some (JNum (snd p))) xs).
  { unfold recs. rewrite map_map. apply map_ext_in. intros [l t] Hl.
    unfold stamped. destruct (heap s l) as [o|] eqn:Hh.
    - apply assoc_obj_to_json_set.
    - exfalso. apply (Hin l); [apply (in_map fst) in Hl; exact Hl | exact Hh]. }
  split; [|split; [exact Hids|]].
  - rewrite Hrecs in Hp'. apply select_all.
    + apply getTable_readable; assumption.
    + unfold recs. rewrite !length_map. exact Hlim.
  - rewrite Hids.
    replace (map (fun p : loc * Z => Some (JNum (snd p))) xs)
      with (map (fun n => Some (JNum n)) (map snd xs)) by now rewrite map_map.
    apply NoDup_map_inj. intros x y Hxy. now injection Hxy.
Qed.

Lemma insert_all_then_select_witness :
  let xs := [(1%nat, 1000); (2%nat, 1001)] in
  let recs := map (fun '(l, t) => obj_to_json (stamped (heap st_two) l t)) xs in
  let s' := snd (insert_run "t" xs st_two) in
  fst (select "t" [] 1 10 s') = Ok (map JObj recs) /\
  map (assoc "id") recs = map (fun p => Some (JNum (snd p))) xs /\
  (NoDup (map (assoc "id") recs) <-> NoDup (map snd xs)).
Proof.
  apply insert_all_then_select; try reflexivity.
  - repeat constructor; simpl; intuition discriminate.
  - intros l [<-|[<-|[]]]; discriminate.
  - simpl. lia.
Defined.

(** * Further properties of the code *)

(** ** Page size bound *)

Lemma js_slice_length_le {A} (l : list A) (s lim : Z) :
  0 <= lim -> (length (js_slice l s (s + lim)) <= Z.to_nat lim)%nat.
Proof.
  intros Hlim. unfold js_slice.
  rewrite length_firstn.
  assert (Hd : js_rel (Z.of_nat (length l)) (s + lim) - js_rel (Z.of_nat (length l)) s <= lim).
  { unfold js_rel.
    destruct (Z.ltb_spec (s + lim) 0), (Z.ltb_spec s 0); lia. }
  unfold js_rel in Hd. lia.
Qed.



(** [update] returns at most 10 records (its [select(query)] uses the
    default limit), however many records it changed. *)
Theorem update_returns_at_most_10 (name : string) (q : query) (u : list (string * val))
  (t : list record) (s : state) :
  read_ok s = true -> write_ok s = true ->
  ls s name = Some (SJson (JArr (map JObj t))) ->
  exists res, fst (update name q u s) = Ok res /\ (length res <= 10)%nat.
Proof.
  intros Hr Hw Hs. rewrite (update_records name q u t s Hr Hw Hs).
  set (s1 := upd_ls s name _).
  assert (Hs1 : ls s1 name = Some (SJson (JArr (map JObj (map (fun r =>
             match to_json (update_record q u r) with JObj o => o | _ => [] end) t))))).
  { unfold s1, upd_ls. simpl. rewrite String.eqb_refl. do 3 f_equal.
    rewrite !map_map. apply map_ext. intros r. unfold update_record.
    destruct (record_matches q r).
    - reflexivity.
    - now rewrite to_json_embed. }
  rewrite (select_records name q _ 1 10 s1 Hr Hs1).
  eexists. split; [reflexivity|].
  apply (js_slice_length_le _ ((1 - 1) * 10) 10). lia.
Qed.

Definition t12 : list record := map (fun i => rec_n (Z.of_nat i)) (seq 1 12).
Definition st12 : state := upd_ls empty_state "t" (SJson (JArr (map JObj t12))).

Lemma update_returns_at_most_10_witness :
  exists res, fst (update "t" [] [("v", VNum 0)] st12) = Ok res /\ (length res <= 10)%nat.
Proof. exact (update_returns_at_most_10 "t" [] [("v", VNum 0)] t12 st12 eq_refl eq_refl eq_refl). Defined.

Example update_12_returns_10 :
  option_map (@length json) (match fst (update "t" [] [("v", VNum 0)] st12) with
                             | Ok l => Some l | Throw _ => None end) = Some 10%nat.
Proof. reflexivity. Qed.

(** ** A slot holding JSON that is not an array *)

Definition is_array (j : json) : bool :=
  match j with JArr _ => true | _ => false end.

Lemma bind_throw {A B} (m : M A) (f : A -> M B) (s s' : state) (e : exn) :
  m s = (Throw e, s') -> bind m f s = (Throw e, s').
Proof. intros H. unfold bind. now rewrite H. Qed.

(** When the table's slot holds readable JSON that is not an array (a
    [fetchData] pass can store one), [insert], [select], [update] and
    [delete] throw a [TypeError] ([push], [filter], [map] are not functions
    of it) and write nothing to storage. *)
Theorem non_array_slot_throws (name : string) (o : op) (j : json) (s : state) :
  read_ok s = true -> ls s name = Some (SJson j) -> is_array j = false ->
  o <> OClear -> op_wf s o ->
  fst (run_op name o s) = Throw TypeError /\
  (forall k, ls (snd (run_op name o s)) k = ls s k).
Proof.
  intros Hr Hs Ha Hc Hwf.
  assert (Hg : _getTable name s = (Ok j, s)).
  { apply getTable_readable; [exact Hr|]. now rewrite Hs. }
  assert (Hthrow : exists s', run_op name o s = (Throw TypeError, s') /\
                              forall k, ls s' k = ls s k).
  { destruct o as [item|q p lim|q u|q|]; [| | | |contradiction];
      simpl run_op; unfold fmap.
    - simpl in Hwf. destruct (heap s item) as [ob|] eqn:Hh; [|congruence].
      pose proof (insert_eq name item ob j s Hg Hh) as Hi. simpl in Hi.
      eexists; split; [apply bind_throw; rewrite Hi;
                       destruct j; try discriminate; reflexivity|].
      reflexivity.
    - exists s. split; [|reflexivity]. apply bind_throw.
      unfold select. rewrite (bind_ok _ _ _ _ _ Hg).
      destruct j; try discriminate; reflexivity.
    - exists s. split; [|reflexivity]. apply bind_throw.
      unfold update. rewrite (bind_ok _ _ _ _ _ Hg).
      destruct j; try discriminate; reflexivity.
    - exists s. split; [|reflexivity]. apply bind_throw.
      unfold delete. rewrite (bind_ok _ _ _ _ _ Hg).
      destruct j; try discriminate; reflexivity. }
  destruct Hthrow as [s' [-> Hk]]. split; [reflexivity | exact Hk].
Qed.

Definition st_obj : state := upd_ls empty_state "t" (SJson (JObj [])).

Lemma non_array_slot_throws_witness :
  fst (run_op "t" (ODelete []) st_obj) = Throw TypeError /\
  (forall k, ls (snd (run_op "t" (ODelete []) st_obj)) k = ls st_obj k).
Proof.
  apply (non_array_slot_throws "t" (ODelete []) (JObj [])); try reflexivity.
  discriminate.
Defined.

(** ** A [null] element in the table *)

Lemma json_eq_null (x : json) : x = JNull \/ x <> JNull.
Proof. destruct x; (left; reflexivity) || (right; discriminate). Qed.

Lemma item_matches_non_null (q : query) (x : json) :
  x <> JNull -> exists b, item_matches q x = Ok b.
Proof.
  intros Hx. unfold item_matches. generalize (query_keys q) as keys.
  induction keys as [|k ks IH]; simpl; [eexists; reflexivity|].
  destruct x; try congruence; simpl;
    match goal with |- exists b, (if ?c then _ else _) = _ => destruct c end;
    eauto.
Qed.

(** When the stored table contains [null] (a [fetchData] pass can store
    one), [select] with a query naming at least one field throws a
    [TypeError] ([null[key]]), while [select({})] never reads a field and
    returns the elements as they are. *)
Theorem null_element_select (name : string) (q : query) (l : list json)
  (page limit : Z) (s : state) :
  read_ok s = true -> ls s name = Some (SJson (JArr l)) -> In JNull l ->
  q <> [] ->
  fst (select name q page limit s) = Throw TypeError /\
  fst (select name [] 1 (Z.of_nat (length l)) s) = Ok l.
Proof.
  intros Hr Hs Hin Hq.
  assert (Hg : _getTable name s = (Ok (JArr l), s)).
  { apply getTable_readable; [exact Hr|]. now rewrite Hs. }
  split.
  - unfold select. rewrite (bind_ok _ _ _ _ _ Hg). unfold bind, lift. simpl.
    assert (Hf : filter_r (item_matches q) l = Throw TypeError).
    { clear - Hin Hq. induction l as [|x t IH]; [destruct Hin|].
      destruct (json_eq_null x) as [->|Hx].
      - simpl. destruct q as [|[k v] q']; [congruence|]. reflexivity.
      - destruct (item_matches_non_null q x Hx) as [b Hb].
        destruct Hin as [Hin|Hin]; [congruence|].
        simpl. rewrite Hb. simpl. now rewrite IH. }
    now rewrite Hf.
  - apply select_all; [exact Hg | lia].
Qed.

Definition st_null : state :=
  upd_ls empty_state "t" (SJson (JArr [JObj (rec_n 1); JNull])).

Lemma null_element_select_witness :
  fst (select "t" [("n", VNum 1)] 1 10 st_null) = Throw TypeError /\
  fst (select "t" [] 1 (Z.of_nat (length [JObj (rec_n 1); JNull])) st_null) =
  Ok [JObj (rec_n 1); JNull].
Proof.
  apply (null_element_select "t" [("n", VNum 1)] [JObj (rec_n 1); JNull] 1 10);
    [reflexivity | reflexivity | simpl; auto | discriminate].
Defined.

(** ** Which slots an operation can write *)

Section Frame.
Variable name : string.

(** From [s] to [s']: the flags are the same, and every slot is unchanged
    except the slot [name], which may change only if writes succeed. *)
Definition touches (s s' : state) : Prop :=
  read_ok s' = read_ok s /\ write_ok s' = write_ok s /\
  forall k, ls s' k = ls s k \/ (k = name /\ write_ok s = true).

Definition only_touches {A} (m : M A) : Prop := forall s, touches s (snd (m s)).

Lemma touches_refl (s : state) : touches s s.
Proof. repeat split; auto. Qed.

Lemma touches_trans (s1 s2 s3 : state) :
  touches s1 s2 -> touches s2 s3 -> touches s1 s3.
Proof.
  intros [R1 [W1 K1]] [R2 [W2 K2]]. repeat split; try congruence.
  intros k. destruct (K1 k) as [E1|[Ek H1]]; destruct (K2 k) as [E2|[Ek' H2]].
  - left. congruence.
  - right. split; congruence.
  - right. auto.
  - right. auto.
Qed.

Lemma frame_ret {A} (a : A) : only_touches (ret a).
Proof. intros s. apply touches_refl. Qed.

Lemma frame_throw {A} (e : exn) : only_touches (A := A) (throw e).
Proof. intros s. apply touches_refl. Qed.

Lemma frame_lift {A} (r : result A) : only_touches (lift r).
Proof. intros s. apply touches_refl. Qed.

Lemma frame_bind {A B} (m : M A) (f : A -> M B) :
  only_touches m -> (forall a, only_touches (f a)) -> only_touches (bind m f).
Proof.
  intros Hm Hf s. unfold bind. specialize (Hm s).
  destruct (m s) as [[a|e] s1]; simpl in *; [|exact Hm].
  eapply touches_trans; [exact Hm | apply Hf].
Qed.

Lemma frame_try {A} (m : M A) (h : exn -> M A) :
  only_touches m -> (forall e, only_touches (h e)) -> only_touches (try_catch m h).
Proof.
  intros Hm Hh s. unfold try_catch. specialize (Hm s).
  destruct (m s) as [[a|e] s1]; simpl in *; [exact Hm|].
  eapply touches_trans; [exact Hm | apply Hh].
Qed.

Lemma frame_getItem (k : string) : only_touches (getItem k).
Proof. intros s. unfold getItem. destruct (read_ok s); apply touches_refl. Qed.

Lemma frame_date_now : only_touches date_now.
Proof. intros s. apply touches_refl. Qed.

Lemma frame_heap_get (l : loc) : only_touches (heap_get l).
Proof. intros s. unfold heap_get. destruct (heap s l); apply touches_refl. Qed.

Lemma frame_heap_set_prop (l : loc) (k : string) (v : val) :
  only_touches (heap_set_prop l k v).
Proof.
  intros s. unfold heap_set_prop. destruct (heap s l); [|apply touches_refl].
  repeat split; auto.
Qed.

Lemma frame_setItem (v : slot) : only_touches (setItem name v).
Proof.
  intros s. unfold setItem. destruct (write_ok s) eqn:Hw; [|apply touches_refl].
  simpl. repeat split; auto. intros k. unfold upd_ls; simpl.
  destruct (String.eqb_spec k name); auto.
Qed.

End Frame.

Create HintDb frame.
#[local] Hint Resolve frame_ret frame_throw frame_lift frame_getItem frame_date_now
  frame_heap_get frame_heap_set_prop frame_setItem : frame.

Ltac solve_frame :=
  repeat (apply frame_bind || apply frame_try || intros);
  auto with frame.

Lemma frame_getTable (name : string) : only_touches name (_getTable name).
Proof. unfold _getTable. solve_frame. Qed.

Lemma frame_select (name : string) (q : query) (p l : Z) :
  only_touches name (select name q p l).
Proof. unfold select. apply frame_bind; [apply frame_getTable | solve_frame]. Qed.

#[local] Hint Resolve frame_getTable frame_select : frame.

Lemma frame_run_op (name : string) (o : op) : only_touches name (run_op name o).
Proof.
  destruct o; unfold run_op, fmap, insert, update, delete, clear, _setTable;
    solve_frame.
Qed.

Lemma frame_fetch (name : string) (r : response) :
  only_touches name (fetchAndStoreData name r).
Proof.
  unfold fetchAndStoreData, _setTable. apply frame_try; [|solve_frame].
  apply frame_bind; [destruct r as [|st [j|t]]|]; solve_frame.
Qed.

(** ** Storage errors never reach the caller *)

(** A result that is not a [localStorage] failure. *)
Definition no_storage_error_r {A} (r : result A) : Prop := r <> Throw StorageError.

(** A computation whose outcome, from any state, is not a [localStorage]
    failure. *)
Definition no_storage_error {A} (m : M A) : Prop :=
  forall s, fst (m s) <> Throw StorageError.

Lemma nse_rbind {A B} (r : result A) (f : A -> result B) :
  no_storage_error_r r -> (forall a, no_storage_error_r (f a)) ->
  no_storage_error_r (rbind r f).
Proof.
  intros Hr Hf. destruct r as [a|e]; simpl; [apply Hf|].
  intros H. injection H as ->. exact (Hr eq_refl).
Qed.

Lemma nse_Ok {A} (a : A) : no_storage_error_r (Ok a).
Proof. discriminate. Qed.

Lemma nse_prop_get (item : json) (k : string) : no_storage_error_r (prop_get item k).
Proof. destruct item; discriminate. Qed.

Lemma nse_as_array (j : json) : no_storage_error_r (as_array j).
Proof. destruct j; discriminate. Qed.

Lemma nse_every_key (q : query) (item : json) (keys : list string) :
  no_storage_error_r (every_key q item keys).
Proof.
  induction keys as [|k ks IH]; simpl; [apply nse_Ok|].
  apply nse_rbind; [apply nse_prop_get|]. intros x.
  destruct (strict_eq x (query_get q k)); [exact IH | apply nse_Ok].
Qed.

Lemma nse_item_matches (q : query) (item : json) : no_storage_error_r (item_matches q item).
Proof. apply nse_every_key. Qed.

Lemma nse_filter_r {A} (p : A -> result bool) (l : list A) :
  (forall x, no_storage_error_r (p x)) -> no_storage_error_r (filter_r p l).
Proof.
  intros Hp. induction l as [|x t IH]; simpl; [apply nse_Ok|].
  apply nse_rbind; [apply Hp|]. intros b.
  apply nse_rbind; [exact IH|]. intros r. apply nse_Ok.
Qed.

Lemma nse_map_r {A B} (f : A -> result B) (l : list A) :
  (forall x, no_storage_error_r (f x)) -> no_storage_error_r (map_r f l).
Proof.
  intros Hf. induction l as [|x t IH]; simpl; [apply nse_Ok|].
  apply nse_rbind; [apply Hf|]. intros y.
  apply nse_rbind; [exact IH|]. intros r. apply nse_Ok.
Qed.

Lemma nse_ret {A} (a : A) : no_storage_error (ret a).
Proof. intros s. discriminate. Qed.

Lemma nse_lift {A} (r : result A) : no_storage_error_r r -> no_storage_error (lift r).
Proof. intros Hr s. exact Hr. Qed.

Lemma nse_bind {A B} (m : M A) (f : A -> M B) :
  no_storage_error m -> (forall a, no_storage_error (f a)) ->
  no_storage_error (bind m f).
Proof.
  intros Hm Hf s. unfold bind. specialize (Hm s).
  destruct (m s) as [[a|e] s1]; simpl in *; [apply Hf|].
  intros H. injection H as ->. exact (Hm eq_refl).
Qed.

(** [try]/[catch] whose handler raises no storage error: whatever the body
    throws, a storage error included, is caught. *)
Lemma nse_try {A} (m : M A) (h : exn -> M A) :
  (forall e, no_storage_error (h e)) -> no_storage_error (try_catch m h).
Proof.
  intros Hh s. unfold try_catch.
  destruct (m s) as [[a|e] s1]; [discriminate | apply Hh].
Qed.

Lemma nse_date_now : no_storage_error date_now.
Proof. intros s. discriminate. Qed.

Lemma nse_heap_get (l : loc) : no_storage_error (heap_get l).
Proof. intros s. unfold heap_get. destruct (heap s l); discriminate. Qed.

Lemma nse_heap_set_prop (l : loc) (k : string) (v : val) :
  no_storage_error (heap_set_prop l k v).
Proof. intros s. unfold heap_set_prop. destruct (heap s l); discriminate. Qed.

Create HintDb nse.
#[local] Hint Resolve nse_rbind nse_Ok nse_prop_get nse_as_array nse_item_matches
  nse_filter_r nse_map_r nse_ret nse_lift nse_bind nse_try nse_date_now
  nse_heap_get nse_heap_set_prop : nse.

Ltac solve_nse :=
  repeat (apply nse_bind || apply nse_try || apply nse_lift || apply nse_rbind
          || apply nse_filter_r || apply nse_map_r || intros);
  auto with nse.

Lemma nse_getTable (name : string) : no_storage_error (_getTable name).
Proof. unfold _getTable. solve_nse. Qed.

Lemma nse_setTable (name : string) (v : val) : no_storage_error (_setTable name v).
Proof. unfold _setTable. solve_nse. Qed.

#[local] Hint Resolve nse_getTable nse_setTable : nse.

Lemma nse_select (name : string) (q : query) (p l : Z) :
  no_storage_error (select name q p l).
Proof. unfold select. solve_nse. Qed.

#[local] Hint Resolve nse_select : nse.

Lemma nse_run_op (name : string) (o : op) : no_storage_error (run_op name o).
Proof.
  destruct o; unfold run_op, fmap, insert, update, delete, clear; solve_nse.
Qed.

Lemma nse_fetch (name : string) (r : response) :
  no_storage_error (fetchAndStoreData name r).
Proof. unfold fetchAndStoreData. solve_nse. Qed.

(** The table operations of a table named [name], and a [fetchData] pass
    into [name], write no slot of [localStorage] other than [name]. *)
Theorem ops_touch_only_own_slot (name : string) (o : op) (r : response)
  (s : state) (k : string) :
  k <> name ->
  ls (snd (run_op name o s)) k = ls s k /\
  ls (snd (fetchAndStoreData name r s)) k = ls s k.
Proof.
  intros Hk.
  destruct (frame_run_op name o s) as [_ [_ H1]].
  destruct (frame_fetch name r s) as [_ [_ H2]].
  split; [destruct (H1 k) as [E|[E _]] | destruct (H2 k) as [E|[E _]]];
    congruence.
Qed.

Lemma ops_touch_only_own_slot_witness :
  ls (snd (run_op "t" OClear st15)) "u" = ls st15 "u" /\
  ls (snd (fetchAndStoreData "t" (Body 200 (SJson JNull)) st15)) "u" = ls st15 "u".
Proof. apply ops_touch_only_own_slot. discriminate. Defined.

(** When [setItem] throws (storage full or disabled), the failure is
    swallowed: no table operation and no [fetchData] pass changes any slot
    of [localStorage], no [StorageError] reaches the caller of a table
    operation (it returns normally, or raises only what the array code
    raises), and a [fetchData] pass completes normally. *)
Theorem write_failure_keeps_storage (name : string) (o : op) (r : response)
  (s : state) (k : string) :
  write_ok s = false ->
  ls (snd (run_op name o s)) k = ls s k /\
  ls (snd (fetchAndStoreData name r s)) k = ls s k /\
  fst (run_op name o s) <> Throw StorageError /\
  fst (fetchAndStoreData name r s) = Ok tt.
Proof.
  intros Hw.
  destruct (frame_run_op name o s) as [_ [_ H1]].
  destruct (frame_fetch name r s) as [_ [_ H2]].
  split; [destruct (H1 k) as [E|[_ E]]; congruence|].
  split; [destruct (H2 k) as [E|[_ E]]; congruence|].
  split; [apply nse_run_op|].
  rewrite fetchAndStoreData_eq. reflexivity.
Qed.

Definition st15_full : state :=
  mkState (ls st15) true false 0 (fun _ => None).

Lemma write_failure_keeps_storage_witness :
  ls (snd (run_op "t" OClear st15_full)) "t" = ls st15_full "t" /\
  ls (snd (fetchAndStoreData "t" (Body 200 (SJson JNull)) st15_full)) "t" = ls st15_full "t" /\
  fst (run_op "t" OClear st15_full) <> Throw StorageError /\
  fst (fetchAndStoreData "t" (Body 200 (SJson JNull)) st15_full) = Ok tt.
Proof. apply write_failure_keeps_storage. reflexivity. Defined.

(** ** [update] when the write fails *)

Definition err_of {A} (r : result A) : option exn :=
  match r with Ok _ => None | Throw e => Some e end.

(** [map] and [filter] call the predicate on the same elements in the same
    order, so they throw the same exception, or neither throws. *)
Lemma map_r_filter_r_err {B} (p : json -> result bool) (g : bool -> json -> B)
  (l : list json) :
  err_of (map_r (fun x => b <-? p x ;; Ok (g b x)) l) = err_of (filter_r p l).
Proof.
  induction l as [|x t IH]; simpl; [reflexivity|].
  destruct (p x); simpl; [|reflexivity].
  destruct (map_r _ t), (filter_r p t); simpl in *; congruence.
Qed.

(** When [setItem] throws, [update(query, updates)] has no effect on storage
    and returns exactly what [select(query)] (page 1, limit 10) returns on
    the unchanged table: the same records, or the same exception. *)
Theorem update_write_failure (name : string) (q : query) (u : list (string * val))
  (s : state) :
  write_ok s = false -> update name q u s = select name q 1 10 s.
Proof.
  intros Hw. destruct (getTable_pure name s) as [j Hg].
  unfold update. rewrite (bind_ok _ _ _ _ _ Hg).
  destruct j as [| | | |l|];
    try (unfold select; rewrite (bind_ok _ _ _ _ _ Hg); reflexivity).
  pose proof (map_r_filter_r_err (item_matches q)
                (fun b item => if b then VObj (merge_item item u) else embed item) l) as He.
  unfold bind at 1, lift. simpl.
  destruct (map_r _ l) as [v|e]; destruct (filter_r (item_matches q) l) as [f|e'] eqn:Ef;
    simpl in He; try discriminate.
  - unfold bind at 1, _setTable, try_catch, setItem. rewrite Hw. reflexivity.
  - unfold select. rewrite (bind_ok _ _ _ _ _ Hg). unfold bind, lift. simpl.
    rewrite Ef. congruence.
Qed.

Lemma update_write_failure_witness :
  update "t" q_a [("value", VNum 1)] (mkState (ls st_aba) true false 0 (fun _ => None)) =
  select "t" q_a 1 10 (mkState (ls st_aba) true false 0 (fun _ => None)).
Proof. apply update_write_failure. reflexivity. Defined.

(** ** After [clear()] *)

Lemma getTable_after_clear (name : string) (s : state) :
  write_ok s = true ->
  _getTable name (snd (clear name s)) = (Ok (JArr []), snd (clear name s)).
Proof.
  intros Hw. rewrite clear_eq. unfold write_empty. rewrite Hw. simpl.
  destruct (read_ok s) eqn:Hr.
  - apply getTable_empty_written.
  - apply getTable_failed. left. exact Hr.
Qed.

(** After a [clear()] whose write succeeded, [select] returns [[]] for every
    query, page and limit, [delete] returns [0] and [update] returns [[]]. *)
Theorem clear_then_empty (name : string) (q : query) (p l : Z)
  (u : list (string * val)) (s : state) :
  write_ok s = true ->
  let s' := snd (clear name s) in
  fst (select name q p l s') = Ok [] /\
  fst (delete name q s') = Ok 0 /\
  fst (update name q u s') = Ok [].
Proof.
  intros Hw s'. pose proof (getTable_after_clear name s Hw) as Hg. fold s' in Hg.
  rewrite (select_on_empty name s' Hg), (delete_on_empty name s' Hg),
    (update_on_empty name s' Hg).
  repeat split.
Qed.

Lemma clear_then_empty_witness :
  let s' := snd (clear "t" st15) in
  fst (select "t" [] 1 10 s') = Ok [] /\
  fst (delete "t" [] s') = Ok 0 /\
  fst (update "t" [] [] s') = Ok [].
Proof. apply clear_then_empty. reflexivity. Defined.

(** ** [delete] twice *)

Lemma delete_records (name : string) (q : query) (t : list record) (s : state) :
  read_ok s = true -> write_ok s = true ->
  ls s name = Some (SJson (JArr (map JObj t))) ->
  let kept := filter (fun r => negb (record_matches q r)) t in
  delete name q s =
    (Ok (Z.of_nat (length t) - Z.of_nat (length kept)),
     upd_ls s name (SJson (JArr (map JObj kept)))).
Proof.
  intros Hr Hw Hs kept.
  unfold delete, _getTable, _setTable, try_catch, bind, getItem, setItem, lift, ret.
  rewrite Hr, Hs. simpl. rewrite filter_r_not_matches. simpl. rewrite Hw.
  rewrite !length_map, map_to_json_embed. reflexivity.
Qed.

Lemma filter_idem {A} (p : A -> bool) (l : list A) : filter p (filter p l) = filter p l.
Proof.
  induction l as [|x t IH]; simpl; [reflexivity|].
  destruct (p x) eqn:E; simpl; [rewrite E, IH|]; auto.
Qed.

Lemma filter_none_left (q : query) (t : list record) :
  filter (record_matches q) (filter (fun r => negb (record_matches q r)) t) = [].
Proof.
  induction t as [|r t IH]; simpl; [reflexivity|].
  destruct (record_matches q r) eqn:E; simpl; [exact IH|]. now rewrite E.
Qed.

(** On a readable, writable table of records, after [delete(query)] no
    record matches [query]: a second [delete(query)] returns [0] and leaves
    storage as it is, and [select(query)] returns [[]] for every page and
    limit. *)
Theorem delete_twice (name : string) (q : query) (t : list record) (s : state) :
  read_ok s = true -> write_ok s = true ->
  ls s name = Some (SJson (JArr (map JObj t))) ->
  let s' := snd (delete name q s) in
  fst (delete name q s') = Ok 0 /\
  (forall k, ls (snd (delete name q s')) k = ls s' k) /\
  (forall p l, fst (select name q p l s') = Ok []).
Proof.
  intros Hr Hw Hs s'.
  set (kept := filter (fun r => negb (record_matches q r)) t).
  assert (Hs' : s' = upd_ls s name (SJson (JArr (map JObj kept)))).
  { unfold s'. now rewrite (delete_records name q t s Hr Hw Hs). }
  assert (Hr' : read_ok s' = true) by (rewrite Hs'; exact Hr).
  assert (Hw' : write_ok s' = true) by (rewrite Hs'; exact Hw).
  assert (Hl' : ls s' name = Some (SJson (JArr (map JObj kept)))).
  { rewrite Hs'. unfold upd_ls. simpl. now rewrite String.eqb_refl. }
  assert (Hk : filter (fun r => negb (record_matches q r)) kept = kept)
    by (unfold kept; apply filter_idem).
  rewrite (delete_records name q kept s' Hr' Hw' Hl'). cbv zeta. rewrite Hk.
  split; [simpl; f_equal; lia|]. split.
  - clearbody s'. intros k. unfold upd_ls. simpl.
    destruct (String.eqb_spec k name) as [->|Hne]; [now rewrite Hl'|reflexivity].
  - intros p l. rewrite (select_records name q kept p l s' Hr' Hl').
    unfold kept. rewrite filter_none_left. simpl.
    unfold js_slice. now rewrite skipn_nil, firstn_nil.
Qed.

Lemma delete_twice_witness :
  let s' := snd (delete "t" q_a st_aba) in
  fst (delete "t" q_a s') = Ok 0 /\
  (forall k, ls (snd (delete "t" q_a s')) k = ls s' k) /\
  (forall p l, fst (select "t" q_a p l s') = Ok []).
Proof. apply (delete_twice "t" q_a t_aba); reflexivity. Defined.

(** ** [update] matching nothing *)

(** On a readable, writable table of records none of which matches
    [query], [update(query, updates)] returns [[]] and storage holds the
    same table as before. *)
Theorem update_no_match (name : string) (q : query) (u : list (string * val))
  (t : list record) (s : state) :
  read_ok s = true -> write_ok s = true ->
  ls s name = Some (SJson (JArr (map JObj t))) ->
  forallb (fun r => negb (record_matches q r)) t = true ->
  fst (update name q u s) = Ok [] /\
  (forall k, ls (snd (update name q u s)) k = ls s k).
Proof.
  intros Hr Hw Hs Hn.
  assert (Hu : map to_json (map (update_record q u) t) = map JObj t).
  { clear - Hn. induction t as [|r t IH]; simpl in *; [reflexivity|].
    apply andb_true_iff in Hn as [H1 H2].
    f_equal; [|exact (IH H2)].
    unfold update_record. destruct (record_matches q r); [discriminate|].
    apply to_json_embed. }
  assert (Hf : filter (record_matches q) t = []).
  { clear - Hn. induction t as [|r t IH]; simpl in *; [reflexivity|].
    apply andb_true_iff in Hn as [H1 H2].
    destruct (record_matches q r); [discriminate|]. exact (IH H2). }
  rewrite (update_records name q u t s Hr Hw Hs), Hu.
  set (s1 := upd_ls s name (SJson (JArr (map JObj t)))).
  assert (Hl1 : ls s1 name = Some (SJson (JArr (map JObj t)))).
  { unfold s1, upd_ls. simpl. now rewrite String.eqb_refl. }
  rewrite (select_records name q t 1 10 s1 Hr Hl1), Hf. simpl.
  split; [reflexivity|].
  intros k. unfold s1, upd_ls. simpl.
  destruct (String.eqb_spec k name) as [->|]; [now rewrite Hs|reflexivity].
Qed.

Lemma update_no_match_witness :
  fst (update "t" [("name", VStr "c")] [("value", VNum 1)] st_aba) = Ok [] /\
  (forall k, ls (snd (update "t" [("name", VStr "c")] [("value", VNum 1)] st_aba)) k
             = ls st_aba k).
Proof. apply (update_no_match "t" _ _ t_aba); reflexivity. Defined.

(** ** [fetchData]: the first pass and the periodic ones *)

(** [await fetchAndStoreData(); setInterval(fetchAndStoreData, timeInterval)]:
    the passes run one after the other, the [i]-th one seeing response
    [rs !! i]. *)
Fixpoint fetch_passes (dataTableName : string) (rs : list response) : M unit :=
  match rs with
  | [] => ret tt
  | r :: rest => fetchAndStoreData dataTableName r ;;; fetch_passes dataTableName rest
  end.

(** The last response of [rs] whose body is JSON. *)
Fixpoint last_json (rs : list response) : option json :=
  match rs with
  | [] => None
  | r :: rest =>
      match last_json rest with
      | Some j => Some j
      | None => match r with Body _ (SJson j) => Some j | _ => None end
      end
  end.

(** A sequence of [fetchData] passes on writable storage never raises; the
    target slot ends up holding the last response body that was JSON,
    whatever its HTTP status (the earlier ones are overwritten), or what it
    held before if no response had a JSON body; no other slot changes. *)
Theorem fetch_passes_last_body (dataTableName : string) (rs : list response)
  (s : state) (k : string) :
  write_ok s = true ->
  fst (fetch_passes dataTableName rs s) = Ok tt /\
  ls (snd (fetch_passes dataTableName rs s)) k =
    if String.eqb k dataTableName
    then match last_json rs with Some j => Some (SJson j) | None => ls s k end
    else ls s k.
Proof.
  revert s. induction rs as [|r rest IH]; intros s Hw.
  - simpl. split; [reflexivity|]. now destruct (String.eqb k dataTableName).
  - simpl fetch_passes. unfold bind. rewrite fetchAndStoreData_eq.
    cbv beta iota.
    set (s1 := match r with
               | Body _ (SJson j) => if write_ok s then upd_ls s dataTableName (SJson j) else s
               | _ => s
               end).
    assert (Hw1 : write_ok s1 = true).
    { unfold s1. destruct r as [|st [j|t]]; try exact Hw. now rewrite Hw. }
    destruct (IH s1 Hw1) as [Hok Hls]. split; [exact Hok|]. rewrite Hls.
    simpl last_json. destruct (String.eqb k dataTableName) eqn:Ek.
    + apply String.eqb_eq in Ek. subst k.
      destruct (last_json rest); [reflexivity|].
      unfold s1; destruct r as [|st [j|t]]; try reflexivity. rewrite Hw.
      unfold upd_ls; simpl. now rewrite String.eqb_refl.
    + unfold s1; destruct r as [|st [j|t]]; try reflexivity. rewrite Hw.
      unfold upd_ls; simpl. now rewrite Ek.
Qed.

Lemma fetch_passes_last_body_witness :
  let rs := [Body 200 (SJson (JArr [])); NetFail; Body 503 (SJson body_id1); Body 200 (SText "<html>")] in
  fst (fetch_passes "t" rs st15) = Ok tt /\
  ls (snd (fetch_passes "t" rs st15)) "t" =
    if String.eqb "t" "t"
    then match last_json rs with Some j => Some (SJson j) | None => ls st15 "t" end
    else ls st15 "t".
Proof. apply fetch_passes_last_body. reflexivity. Defined.

(** ** Requests to the remote API: [post], [updateData], [deleteData],
    [syncPost], [syncUpdate] *)

(** The arguments of one [fetch(url, { method, headers, body })] call.
    [headers] is the object literal built for [headers], as its list of
    properties; [None] is an absent body. *)
Record request : Type := mkRequest {
  req_url : string;
  req_method : string;
  req_headers : list (string * val);
  req_body : option slot
}.

(** [body: JSON.stringify(data)]: [JSON.stringify] of [undefined] or of a
    function is [undefined], i.e. no body. *)
Definition body_of (data : val) : option slot :=
  if json_omits data then None else Some (SJson (to_json data)).

(** Decimal text of an integer ([`${id}`]). *)
Fixpoint digits_of (fuel : nat) (n : Z) (acc : string) : string :=
  match fuel with
  | O => acc
  | S f =>
      let acc' := String (Ascii.ascii_of_nat (48 + Z.to_nat (n mod 10))) acc in
      if n <? 10 then acc' else digits_of f (n / 10) acc'
  end.

Definition z_to_string (n : Z) : string :=
  if n <? 0 then "-" ++ digits_of (S (Z.to_nat (Z.log2 (- n)))) (- n) ""
  else digits_of (S (Z.to_nat (Z.log2 n))) n "".

(** The [headers] argument, a [HeadersInit]: a plain object (its own
    enumerable properties, in order), an array of [[name, value]] pairs, or
    a [Headers] instance (its entries live in internal slots: it has no own
    enumerable property). *)
Inductive headers_init : Type :=
| HPlain (props : list (string * val))
| HPairs (pairs : list (string * string))
| HInstance (entries : list (string * string)).

(** The own enumerable properties of the array [[[n0, v0], [n1, v1], ...]]:
    its indices ["0"], ["1"], ... holding the pair arrays ([length] is not
    enumerable). *)
Fixpoint index_props (i : nat) (pairs : list (string * string)) : list (string * val) :=
  match pairs with
  | [] => []
  | (n, v) :: t => (z_to_string (Z.of_nat i), VArr [VStr n; VStr v]) :: index_props (S i) t
  end.

(** What [...headers] copies into an object literal. *)
Definition spread_props (h : headers_init) : list (string * val) :=
  match h with
  | HPlain props => props
  | HPairs pairs => index_props 0 pairs
  | HInstance _ => []
  end.

(** [{ 'Content-Type': 'application/json', ...headers }] *)
Definition json_headers (h : headers_init) : list (string * val) :=
  spread_into [("Content-Type", VStr "application/json")] (spread_props h).

(** Each of [post], [updateData] and [deleteData] makes one [fetch] call and
    catches its failure; the call is all they do. *)
Definition post (apiUrl : string) (data : val) (headers : headers_init) : request :=
  mkRequest apiUrl "POST" (json_headers headers) (body_of data).

Definition updateData (apiUrl : string) (data : val) (headers : headers_init)
  : request :=
  mkRequest apiUrl "PUT" (json_headers headers) (body_of data).

Definition deleteData (apiUrl : string) (id : Z) (headers : headers_init) : request :=
  mkRequest (apiUrl ++ "/" ++ z_to_string id) "DELETE" (json_headers headers) None.

(** [for (const item of table)]: an array yields its elements, a string its
    characters, anything else is not iterable. *)
Definition iterate (j : json) : result (list json) :=
  match j with
  | JArr l => Ok l
  | JStr str => Ok (map (fun c => JStr (String c EmptyString)) (list_ascii_of_string str))
  | _ => Throw TypeError
  end.

(** The [sync] closure of [syncPost] / [syncUpdate]: read the table, then
    one awaited [fetch] per item inside [try]/[catch]; a failing request is
    logged and the loop goes on, so the pass is the list of requests it
    makes. *)
Definition sync (apiUrl meth tableName : string) (headers : headers_init)
  : M (list request) :=
  table <- _getTable tableName ;;
  items <- lift (iterate table) ;;
  ret (map (fun item => mkRequest apiUrl meth (json_headers headers)
                                  (body_of (embed item))) items).

(** [await sync(); setInterval(sync, timeInterval)]: the requests of the
    first pass, and the period of the timer set after it. *)
Definition syncPost (apiUrl tableName : string) (timeInterval : Z)
  (headers : headers_init) : M (list request * Z) :=
  reqs <- sync apiUrl "POST" tableName headers ;;
  ret (reqs, timeInterval).

Definition syncUpdate (apiUrl tableName : string) (timeInterval : Z)
  (headers : headers_init) : M (list request * Z) :=
  reqs <- sync apiUrl "PUT" tableName headers ;;
  ret (reqs, timeInterval).

Example delete_url : req_url (deleteData "https://api/items" 1700000000123 (HPlain []))
  = "https://api/items/1700000000123".
Proof. reflexivity. Qed.

Example delete_url_neg : req_url (deleteData "u" (-40) (HPlain [])) = "u/-40".
Proof. reflexivity. Qed.

Example sync_string : fst (sync "u" "POST" "t" (HPlain []) (upd_ls empty_state "t" (SJson (JStr "ab"))))
  = Ok [mkRequest "u" "POST" [("Content-Type", VStr "application/json")] (Some (SJson (JStr "a")));
        mkRequest "u" "POST" [("Content-Type", VStr "application/json")] (Some (SJson (JStr "b")))].
Proof. reflexivity. Qed.

Lemma sync_eq (apiUrl meth tableName : string) (headers : headers_init)
  (s : state) (j : json) :
  _getTable tableName s = (Ok j, s) ->
  sync apiUrl meth tableName headers s =
  match iterate j with
  | Ok items => (Ok (map (fun item => mkRequest apiUrl meth (json_headers headers)
                                                (body_of (embed item))) items), s)
  | Throw e => (Throw e, s)
  end.
Proof.
  intros Hg. unfold sync. rewrite (bind_ok _ _ _ _ _ Hg).
  unfold bind, lift, ret. destruct (iterate j); reflexivity.
Qed.

Lemma body_of_embed (j : json) : body_of (embed j) = Some (SJson j).
Proof.
  unfold body_of. rewrite to_json_embed. now destruct j.
Qed.

(** The default of the headers object: [Content-Type] alone. *)
Definition ct_default (k : string) : option val :=
  if String.eqb k "Content-Type" then Some (VStr "application/json") else None.

(** Whether a property name begins with a decimal digit. *)
Definition starts_with_digit (k : string) : bool :=
  match k with
  | String c _ => match digit_of c with Some _ => true | None => false end
  | EmptyString => false
  end.

Lemma assoc_json_headers (headers : headers_init) (k : string) :
  NoDup (map fst (spread_props headers)) ->
  assoc k (json_headers headers) =
  match assoc k (spread_props headers) with
  | Some v => Some v
  | None => ct_default k
  end.
Proof.
  intros Hnd. unfold json_headers. rewrite assoc_spread_into by exact Hnd.
  reflexivity.
Qed.

(** [{ ...a, ...props }] leaves a key that [props] does not have as it was. *)
Lemma assoc_spread_into_notin (acc props : list (string * val)) (k : string) :
  ~ In k (map fst props) -> assoc k (spread_into acc props) = assoc k acc.
Proof.
  unfold spread_into. revert acc.
  induction props as [|[k0 v0] ps IH]; intros acc Hn; simpl in *; [reflexivity|].
  rewrite IH by tauto. apply assoc_obj_set_neq. intros ->. tauto.
Qed.

Lemma digit_of_ascii (m : nat) : (m < 10)%nat ->
  digit_of (Ascii.ascii_of_nat (48 + m)) <> None.
Proof.
  intros Hm.
  do 10 (destruct m as [|m]; [unfold digit_of; simpl; discriminate|]).
  lia.
Qed.

Lemma digits_of_starts (f : nat) (n : Z) (c : Ascii.ascii) (acc : string) :
  digit_of c <> None -> starts_with_digit (digits_of f n (String c acc)) = true.
Proof.
  revert n c acc. induction f as [|f IH]; intros n c acc Hc.
  - cbn [digits_of starts_with_digit]. destruct (digit_of c); [reflexivity | contradiction].
  - cbn [digits_of].
    set (c' := Ascii.ascii_of_nat (48 + Z.to_nat (n mod 10))).
    assert (Hc' : digit_of c' <> None).
    { apply digit_of_ascii. pose proof (Z.mod_pos_bound n 10 ltac:(lia)). lia. }
    destruct (n <? 10).
    + cbn [starts_with_digit]. destruct (digit_of c'); [reflexivity | contradiction].
    + apply IH. exact Hc'.
Qed.

(** The decimal text of a natural number begins with a digit. *)
Lemma z_to_string_nat_starts (i : nat) :
  starts_with_digit (z_to_string (Z.of_nat i)) = true.
Proof.
  unfold z_to_string.
  replace (Z.of_nat i <? 0) with false by (symmetry; apply Z.ltb_ge; lia).
  set (n := Z.of_nat i). set (f := Z.to_nat (Z.log2 n)). cbn [digits_of].
  set (c' := Ascii.ascii_of_nat (48 + Z.to_nat (n mod 10))).
  assert (Hc' : digit_of c' <> None).
  { apply digit_of_ascii. pose proof (Z.mod_pos_bound n 10 ltac:(lia)). lia. }
  destruct (n <? 10).
  - cbn [starts_with_digit]. destruct (digit_of c'); [reflexivity | contradiction].
  - apply digits_of_starts. exact Hc'.
Qed.

Lemma index_props_keys (i : nat) (pairs : list (string * string)) (k : string) :
  starts_with_digit k = false -> ~ In k (map fst (index_props i pairs)).
Proof.
  revert i. induction pairs as [|[n v] t IH]; intros i Hk; simpl; [tauto|].
  intros [E|H]; [|exact (IH (S i) Hk H)].
  rewrite <- E, z_to_string_nat_starts in Hk. discriminate.
Qed.

(** Every request that [post], [updateData], [deleteData] and a pass of
    [syncPost] / [syncUpdate] send carries the headers object
    [{ 'Content-Type': 'application/json', ...headers }], and what that
    object holds depends on the kind of [HeadersInit] given:
    - a plain object (without duplicate keys): a header the caller gives
      has the caller's value (a caller's [Content-Type] replaces the
      default), [Content-Type] is [application/json] when the caller gives
      none, and no other header is present;
    - a [Headers] instance: spreading it copies nothing, so the object is
      exactly [{ 'Content-Type': 'application/json' }] and the caller's
      headers are dropped;
    - an array of [[name, value]] pairs: spreading it adds the index keys
      ["0"], ["1"], ... only, so no header whose name does not begin with a
      digit is taken from the caller, and [Content-Type] stays
      [application/json]. *)
Theorem request_headers (apiUrl tableName meth : string) (data : val) (id : Z)
  (headers : headers_init) (s : state) (k : string) :
  (req_headers (post apiUrl data headers) = json_headers headers /\
   req_headers (updateData apiUrl data headers) = json_headers headers /\
   req_headers (deleteData apiUrl id headers) = json_headers headers /\
   (forall reqs, fst (sync apiUrl meth tableName headers s) = Ok reqs ->
                 Forall (fun r => req_headers r = json_headers headers) reqs)) /\
  (forall props, headers = HPlain props -> NoDup (map fst props) ->
     assoc k (json_headers headers) =
       match assoc k props with Some v => Some v | None => ct_default k end) /\
  (forall entries, headers = HInstance entries ->
     json_headers headers = [("Content-Type", VStr "application/json")]) /\
  (forall pairs, headers = HPairs pairs -> starts_with_digit k = false ->
     assoc k (json_headers headers) = ct_default k).
Proof.
  split; [|split; [|split]].
  - split; [reflexivity|]. split; [reflexivity|]. split; [reflexivity|].
    intros reqs Hs. destruct (getTable_pure tableName s) as [j Hg].
    rewrite (sync_eq apiUrl meth tableName headers s j Hg) in Hs.
    destruct (iterate j) as [items|e]; simpl in Hs; [|discriminate].
    injection Hs as <-. apply Forall_forall. intros r Hr.
    apply in_map_iff in Hr as [item [<- _]]. reflexivity.
  - intros props -> Hnd. apply (assoc_json_headers (HPlain props) k Hnd).
  - intros entries ->. reflexivity.
  - intros pairs -> Hk. unfold json_headers. simpl spread_props.
    rewrite assoc_spread_into_notin by (apply index_props_keys; exact Hk).
    reflexivity.
Qed.

Lemma request_headers_witness :
  let plain := [("Authorization", VStr "Bearer x"); ("Content-Type", VStr "text/plain")] in
  let pairs := [("Authorization", "Bearer x"); ("Content-Type", "text/plain")] in
  assoc "Content-Type" (req_headers (post "u" (VNum 1) (HPlain plain))) =
    Some (VStr "text/plain") /\
  req_headers (deleteData "u" 7 (HInstance pairs)) =
    [("Content-Type", VStr "application/json")] /\
  assoc "Authorization" (req_headers (updateData "u" (VNum 1) (HPairs pairs))) = None /\
  assoc "Content-Type" (req_headers (updateData "u" (VNum 1) (HPairs pairs))) =
    Some (VStr "application/json").
Proof.
  intros plain pairs.
  destruct (request_headers "u" "t" "POST" (VNum 1) 7 (HPlain plain) st15 "Content-Type")
    as [[Hp _] [Hplain _]].
  destruct (request_headers "u" "t" "POST" (VNum 1) 7 (HInstance pairs) st15 "Content-Type")
    as [[_ [_ [Hd _]]] [_ [Hinst _]]].
  destruct (request_headers "u" "t" "POST" (VNum 1) 7 (HPairs pairs) st15 "Authorization")
    as [[_ [Hu _]] [_ [_ Hpa]]].
  destruct (request_headers "u" "t" "POST" (VNum 1) 7 (HPairs pairs) st15 "Content-Type")
    as [_ [_ [_ Hpc]]].
  split; [|split; [|split]].
  - rewrite Hp, (Hplain plain eq_refl); [reflexivity|].
    constructor; [simpl; intros [H|[]]; discriminate|].
    constructor; [simpl; tauto | constructor].
  - rewrite Hd. exact (Hinst pairs eq_refl).
  - rewrite Hu. exact (Hpa pairs eq_refl eq_refl).
  - rewrite Hu. exact (Hpc pairs eq_refl eq_refl).
Defined.

(** An array of pairs as [headers]: the request carries the index keys. *)
Example pairs_headers :
  json_headers (HPairs [("Authorization", "Bearer x")]) =
    [("0", VArr [VStr "Authorization"; VStr "Bearer x"]);
     ("Content-Type", VStr "application/json")].
Proof. reflexivity. Qed.

(** On a readable slot holding a JSON array, the first pass of [syncPost]
    sends, in stored order, one request per stored item, exactly the request
    [post(apiUrl, item, headers)] sends, whose body is the item's JSON text;
    [syncUpdate] likewise sends what [updateData(apiUrl, item, headers)]
    sends.  Storage is left as it is and the timer is set. *)
Theorem sync_sends_each_item (apiUrl tableName : string) (ti : Z)
  (headers : headers_init) (l : list json) (s : state) :
  read_ok s = true -> ls s tableName = Some (SJson (JArr l)) ->
  syncPost apiUrl tableName ti headers s =
    (Ok (map (fun item => post apiUrl (embed item) headers) l, ti), s) /\
  syncUpdate apiUrl tableName ti headers s =
    (Ok (map (fun item => updateData apiUrl (embed item) headers) l, ti), s) /\
  map req_body (map (fun item => post apiUrl (embed item) headers) l) =
    map (fun item => Some (SJson item)) l.
Proof.
  intros Hr Hs.
  assert (Hg : _getTable tableName s = (Ok (JArr l), s)).
  { apply getTable_readable; [exact Hr|]. now rewrite Hs. }
  unfold syncPost, syncUpdate.
  rewrite !(bind_ok _ _ _ _ _ (sync_eq apiUrl _ tableName headers s _ Hg)).
  split; [reflexivity|]. split; [reflexivity|].
  rewrite map_map. apply map_ext. intros item. apply body_of_embed.
Qed.

Lemma sync_sends_each_item_witness :
  syncPost "u" "t" 1000 (HPlain []) st5 =
    (Ok (map (fun item => post "u" (embed item) (HPlain [])) (map JObj t5), 1000), st5) /\
  syncUpdate "u" "t" 1000 (HPlain []) st5 =
    (Ok (map (fun item => updateData "u" (embed item) (HPlain [])) (map JObj t5), 1000), st5) /\
  map req_body (map (fun item => post "u" (embed item) (HPlain [])) (map JObj t5)) =
    map (fun item => Some (SJson item)) (map JObj t5).
Proof. apply sync_sends_each_item; reflexivity. Defined.

(** When the table cannot be read (storage throws, or the slot holds text
    that is not JSON) or the slot is absent, a [syncPost] / [syncUpdate]
    pass sends no request, completes, and the timer is set. *)
Theorem sync_unreadable_sends_nothing (apiUrl tableName : string) (ti : Z)
  (headers : headers_init) (s : state) :
  read_fails s tableName \/ ls s tableName = None ->
  syncPost apiUrl tableName ti headers s = (Ok ([], ti), s) /\
  syncUpdate apiUrl tableName ti headers s = (Ok ([], ti), s).
Proof.
  intros H.
  assert (Hg : _getTable tableName s = (Ok (JArr []), s)).
  { destruct H as [H|H]; [now apply getTable_failed|].
    destruct (read_ok s) eqn:Hr; [|apply getTable_failed; now left].
    apply getTable_readable; [exact Hr|]. now rewrite H. }
  unfold syncPost, syncUpdate.
  rewrite !(bind_ok _ _ _ _ _ (sync_eq apiUrl _ tableName headers s _ Hg)).
  split; reflexivity.
Qed.

Lemma sync_unreadable_sends_nothing_witness :
  syncPost "u" "t" 1000 (HPlain []) st_corrupt = (Ok ([], 1000), st_corrupt) /\
  syncUpdate "u" "t" 1000 (HPlain []) st_corrupt = (Ok ([], 1000), st_corrupt).
Proof.
  apply sync_unreadable_sends_nothing. left. right.
  eexists. split; [reflexivity | discriminate].
Defined.

(** When the slot holds JSON that is neither an array nor a string
    ([for...of] cannot iterate it), the first pass of [syncPost] /
    [syncUpdate] throws a [TypeError]: the returned promise rejects, no
    request is sent and no timer is set. *)
Theorem sync_not_iterable (apiUrl tableName : string) (ti : Z)
  (headers : headers_init) (j : json) (s : state) :
  read_ok s = true -> ls s tableName = Some (SJson j) ->
  (forall l, j <> JArr l) -> (forall str, j <> JStr str) ->
  syncPost apiUrl tableName ti headers s = (Throw TypeError, s) /\
  syncUpdate apiUrl tableName ti headers s = (Throw TypeError, s).
Proof.
  intros Hr Hs Ha Hstr.
  assert (Hg : _getTable tableName s = (Ok j, s)).
  { apply getTable_readable; [exact Hr|]. now rewrite Hs. }
  assert (Hi : iterate j = Throw TypeError).
  { destruct j; try reflexivity; [destruct (Hstr s0) | destruct (Ha l)]; reflexivity. }
  unfold syncPost, syncUpdate. unfold bind at 1.
  rewrite (sync_eq apiUrl _ tableName headers s j Hg), Hi. split; [reflexivity|].
  unfold bind. rewrite (sync_eq apiUrl _ tableName headers s j Hg), Hi. reflexivity.
Qed.

Lemma sync_not_iterable_witness :
  syncPost "u" "t" 1000 (HPlain []) st_obj = (Throw TypeError, st_obj) /\
  syncUpdate "u" "t" 1000 (HPlain []) st_obj = (Throw TypeError, st_obj).
Proof.
  apply (sync_not_iterable "u" "t" 1000 (HPlain []) (JObj [])); try reflexivity;
    intros ? H; discriminate.
Defined.

(** ** [insert] on a stored table *)

(** On a readable, writable slot holding a JSON array, [insert(item)]
    returns the item and persists the stored elements unchanged and in
    order, followed by the item as mutated ([id] set to [Date.now()]) and
    serialised by [JSON.stringify]. *)
Theorem insert_appends (name : string) (l : loc) (o : list (string * val))
  (arr : list json) (s : state) :
  read_ok s = true -> write_ok s = true ->
  ls s name = Some (SJson (JArr arr)) -> heap s l = Some o ->
  fst (insert name l s) = Ok l /\
  ls (snd (insert name l s)) name =
    Some (SJson (JArr (arr ++ [JObj (obj_to_json (obj_set o "id" (VNum (now s))))]))).
Proof.
  intros Hr Hw Hs Hh.
  assert (Hg : _getTable name s = (Ok (JArr arr), s)).
  { apply getTable_readable; [exact Hr|]. now rewrite Hs. }
  pose proof (insert_eq name l o (JArr arr) s Hg Hh) as Hi. simpl in Hi.
  rewrite Hi, Hw. split; [reflexivity|].
  simpl. rewrite String.eqb_refl, map_app, map_to_json_embed.
  reflexivity.
Qed.

Lemma insert_appends_witness :
  fst (insert "t" 1%nat (upd_ls st_item "t" (SJson (JArr table15)))) = Ok 1%nat /\
  ls (snd (insert "t" 1%nat (upd_ls st_item "t" (SJson (JArr table15))))) "t" =
    Some (SJson (JArr (table15 ++
      [JObj (obj_to_json (obj_set [("id", VNum 5); ("name", VStr "x")] "id"
                            (VNum (now (upd_ls st_item "t" (SJson (JArr table15)))))))]))).
Proof. apply insert_appends; reflexivity. Defined.

(** ** Reading page after page *)






(** ** A failing write is not reported *)

Lemma delete_records_any (name : string) (q : query) (t : list record) (s : state) :
  read_ok s = true ->
  ls s name = Some (SJson (JArr (map JObj t))) ->
  let kept := filter (fun r => negb (record_matches q r)) t in
  delete name q s =
    (Ok (Z.of_nat (length t) - Z.of_nat (length kept)),
     if write_ok s then upd_ls s name (SJson (JArr (map JObj kept))) else s).
Proof.
  intros Hr Hs kept.
  unfold delete, _getTable, _setTable, try_catch, bind, getItem, setItem, lift, ret.
  rewrite Hr, Hs. simpl. rewrite filter_r_not_matches. simpl.
  destruct (write_ok s); simpl;
    rewrite !length_map; [rewrite map_to_json_embed|]; reflexivity.
Qed.

(** When [setItem] throws, [insert] and [delete] still report success:
    [insert(item)] returns the item and [delete(query)] returns the number
    of matching records, although nothing was stored or removed. *)
Theorem write_failure_unreported (name : string) (l : loc) (o : list (string * val))
  (q : query) (t : list record) (s : state) :
  read_ok s = true -> write_ok s = false ->
  ls s name = Some (SJson (JArr (map JObj t))) -> heap s l = Some o ->
  fst (insert name l s) = Ok l /\
  ls (snd (insert name l s)) name = ls s name /\
  fst (delete name q s) = Ok (Z.of_nat (length (filter (record_matches q) t))) /\
  ls (snd (delete name q s)) name = ls s name.
Proof.
  intros Hr Hw Hs Hh.
  assert (Hg : _getTable name s = (Ok (JArr (map JObj t)), s)).
  { apply getTable_readable; [exact Hr|]. now rewrite Hs. }
  pose proof (insert_eq name l o _ s Hg Hh) as Hi. simpl in Hi.
  rewrite Hi, Hw, (delete_records_any name q t s Hr Hs), Hw.
  split; [reflexivity|]. split; [reflexivity|]. split; [|reflexivity].
  pose proof (length_filter_split (record_matches q) t). simpl. f_equal. lia.
Qed.

Lemma write_failure_unreported_witness :
  let s := mkState (ls st_aba) true false 1000 (heap st_item) in
  fst (insert "t" 1%nat s) = Ok 1%nat /\
  ls (snd (insert "t" 1%nat s)) "t" = ls s "t" /\
  fst (delete "t" q_a s) = Ok (Z.of_nat (length (filter (record_matches q_a) t_aba))) /\
  ls (snd (delete "t" q_a s)) "t" = ls s "t".
Proof. apply (write_failure_unreported "t" 1%nat [("id", VNum 5); ("name", VStr "x")]); reflexivity. Defined.

(** ** [get] *)

(** [get(apiUrl, headers)]: [await response.json()], or [[]] when the
    request or the parse throws. *)
Definition get (r : response) : val :=
  match r with
  | NetFail => VArr []
  | Body _ (SText _) => VArr []
  | Body _ (SJson j) => embed j
  end.

Example get_obj : get (Body 200 (SJson (JObj [("a", JNum 1)]))) = VObj [("a", VNum 1)].
Proof. reflexivity. Qed.

Example get_fail : get NetFail = VArr [].
Proof. reflexivity. Qed.
